(** * TodoApp: the task store of the to-do application

    A shallow embedding of [TodoApp.jsx]: the [useState] cells of the
    component, its event handlers ([addTask], [toggleTask], [deleteTask],
    [startEditTask], [updateTask], [cancelEdit]), the derived view
    ([getFilteredTasks], the count badges, the footer) and the two
    [useEffect] hooks that load the task list from [localStorage] and save it
    back.

    Handlers are functions from the component state to the component state:
    one handler runs to completion per render, and [setX v] is the record
    update of the cell [X].  [Date.now()] is an input of [addTask].  In the
    handlers a task is a record with the six fields the component gives it.

    The hooks run in a small state-and-exception monad over the storage, the
    console, the ref [isFirstRender] and the [tasks] cell, which after a load
    holds whatever value [JSON.parse] returned.  The storage has its items
    and a quota: [setItem] throws when the quota refuses the write.
    [JSON.parse] and [JSON.stringify] are modelled on sequences of UTF-16
    code units, objects with their properties in the order JavaScript keeps
    them.  Rendering is not modelled. *)

From Stdlib Require Import String Ascii.
From Stdlib Require Import List ZArith NArith Lia Bool DecimalN Sorted.
Import ListNotations.
Local Open Scope Z_scope.

(** ** JavaScript strings

    A JavaScript string is a sequence of UTF-16 code units. *)

Definition code_unit := N.
Definition jsstring := list code_unit.

Definition JS (s : string) : jsstring :=
  map N_of_ascii (list_ascii_of_string s).

Fixpoint jsstring_eqb (a b : jsstring) : bool :=
  match a, b with
  | [], [] => true
  | x :: a', y :: b' => N.eqb x y && jsstring_eqb a' b'
  | _, _ => false
  end.

(** [WhiteSpace] and [LineTerminator] of ECMAScript, the code points that
    [String.prototype.trim] strips.  All of them are single code units. *)
Definition isWhiteSpace (c : code_unit) : bool :=
  (N.eqb c 9 || N.eqb c 10 || N.eqb c 11 || N.eqb c 12 || N.eqb c 13
   || N.eqb c 32 || N.eqb c 160 || N.eqb c 5760
   || (N.leb 8192 c && N.leb c 8202)
   || N.eqb c 8232 || N.eqb c 8233 || N.eqb c 8239 || N.eqb c 8287
   || N.eqb c 12288 || N.eqb c 65279)%N.

Fixpoint trimStart (s : jsstring) : jsstring :=
  match s with
  | c :: s' => if isWhiteSpace c then trimStart s' else s
  | [] => []
  end.

Definition trimEnd (s : jsstring) : jsstring := rev (trimStart (rev s)).

(** [s.trim()] *)
Definition trim (s : jsstring) : jsstring := trimEnd (trimStart s).

(** [s || null] for a string [s]: the empty string is the only falsy one. *)
Definition or_null (s : jsstring) : option jsstring :=
  match s with
  | [] => None
  | _ :: _ => Some s
  end.

(** [v || ''] for [v] a string or [null]. *)
Definition or_empty (v : option jsstring) : jsstring :=
  match v with
  | Some (c :: s) => c :: s
  | _ => []
  end.

(** ** Tasks *)

Module Task.

(** [{ id, text, completed, category, dueDate, dueTime }].  [id] is a value
    of [Date.now()], an integral number of milliseconds; [dueDate] and
    [dueTime] are a string or [null]. *)
Record t := mk {
  id : Z;
  text : jsstring;
  completed : bool;
  category : jsstring;
  dueDate : option jsstring;
  dueTime : option jsstring
}.

(** [{ ...task, completed: c }] *)
Definition with_completed (c : bool) (task : t) : t :=
  mk (id task) (text task) c (category task) (dueDate task) (dueTime task).

(** [{ ...task, text: x, dueDate: d, dueTime: h }] *)
Definition with_edit (x : jsstring) (d h : option jsstring) (task : t) : t :=
  mk (id task) x (completed task) (category task) d h.

End Task.

(** ** Component state: the [useState] cells of [TodoApp] *)

Record State := mkState {
  tasks : list Task.t;
  newTask : jsstring;
  editingTaskId : option Z;
  editTaskText : jsstring;
  editDueDate : jsstring;
  editDueTime : jsstring;
  selectedCategory : jsstring;
  dueDate : jsstring;
  dueTime : jsstring;
  activeFilter : jsstring
}.

Definition Personal : jsstring := JS "Personal".
Definition Work : jsstring := JS "Work".
Definition Shopping : jsstring := JS "Shopping".
Definition Health : jsstring := JS "Health".
Definition Finance : jsstring := JS "Finance".
Definition Other : jsstring := JS "Other".
Definition All : jsstring := JS "All".

(** The options of the category [<select>]. *)
Definition categories : list jsstring :=
  [Personal; Work; Shopping; Health; Finance; Other].

(** The filter buttons. *)
Definition filters : list jsstring := All :: categories.

(** The cells as [useState] initialises them. *)
Definition initialState : State :=
  mkState [] [] None [] [] [] Personal [] [] All.

Definition setTasks (v : list Task.t) (st : State) : State :=
  mkState v (newTask st) (editingTaskId st) (editTaskText st) (editDueDate st)
    (editDueTime st) (selectedCategory st) (dueDate st) (dueTime st)
    (activeFilter st).

Definition setNewTask (v : jsstring) (st : State) : State :=
  mkState (tasks st) v (editingTaskId st) (editTaskText st) (editDueDate st)
    (editDueTime st) (selectedCategory st) (dueDate st) (dueTime st)
    (activeFilter st).

Definition setEditingTaskId (v : option Z) (st : State) : State :=
  mkState (tasks st) (newTask st) v (editTaskText st) (editDueDate st)
    (editDueTime st) (selectedCategory st) (dueDate st) (dueTime st)
    (activeFilter st).

Definition setEditTaskText (v : jsstring) (st : State) : State :=
  mkState (tasks st) (newTask st) (editingTaskId st) v (editDueDate st)
    (editDueTime st) (selectedCategory st) (dueDate st) (dueTime st)
    (activeFilter st).

Definition setEditDueDate (v : jsstring) (st : State) : State :=
  mkState (tasks st) (newTask st) (editingTaskId st) (editTaskText st) v
    (editDueTime st) (selectedCategory st) (dueDate st) (dueTime st)
    (activeFilter st).

Definition setEditDueTime (v : jsstring) (st : State) : State :=
  mkState (tasks st) (newTask st) (editingTaskId st) (editTaskText st)
    (editDueDate st) v (selectedCategory st) (dueDate st) (dueTime st)
    (activeFilter st).

Definition setSelectedCategory (v : jsstring) (st : State) : State :=
  mkState (tasks st) (newTask st) (editingTaskId st) (editTaskText st)
    (editDueDate st) (editDueTime st) v (dueDate st) (dueTime st)
    (activeFilter st).

Definition setDueDate (v : jsstring) (st : State) : State :=
  mkState (tasks st) (newTask st) (editingTaskId st) (editTaskText st)
    (editDueDate st) (editDueTime st) (selectedCategory st) v (dueTime st)
    (activeFilter st).

Definition setDueTime (v : jsstring) (st : State) : State :=
  mkState (tasks st) (newTask st) (editingTaskId st) (editTaskText st)
    (editDueDate st) (editDueTime st) (selectedCategory st) (dueDate st) v
    (activeFilter st).

Definition setActiveFilter (v : jsstring) (st : State) : State :=
  mkState (tasks st) (newTask st) (editingTaskId st) (editTaskText st)
    (editDueDate st) (editDueTime st) (selectedCategory st) (dueDate st)
    (dueTime st) v.

(** ** Event handlers *)

(** [addTask], with [now] the value [Date.now()] returns in it. *)
Definition addTask (now : Z) (st : State) : State :=
  if jsstring_eqb (trim (newTask st)) [] then st
  else
    let taskToAdd :=
      Task.mk now (newTask st) false (selectedCategory st)
        (or_null (dueDate st)) (or_null (dueTime st)) in
    setDueTime [] (setDueDate [] (setSelectedCategory Personal
      (setNewTask [] (setTasks (tasks st ++ [taskToAdd]) st)))).

(** [toggleTask(id)] *)
Definition toggleTask (id : Z) (st : State) : State :=
  setTasks
    (map (fun task =>
            if Z.eqb (Task.id task) id
            then Task.with_completed (negb (Task.completed task)) task
            else task)
         (tasks st))
    st.

(** [deleteTask(id)] *)
Definition deleteTask (id : Z) (st : State) : State :=
  setTasks (filter (fun task => negb (Z.eqb (Task.id task) id)) (tasks st)) st.

(** [startEditTask(id, currentText, currentDueDate, currentDueTime)] *)
Definition startEditTask (id : Z) (currentText : jsstring)
    (currentDueDate currentDueTime : option jsstring) (st : State) : State :=
  setEditDueTime (or_empty currentDueTime)
    (setEditDueDate (or_empty currentDueDate)
      (setEditTaskText currentText (setEditingTaskId (Some id) st))).

(** [updateTask(id)] *)
Definition updateTask (id : Z) (st : State) : State :=
  if jsstring_eqb (trim (editTaskText st)) [] then st
  else
    setEditDueTime [] (setEditDueDate [] (setEditTaskText []
      (setEditingTaskId None
        (setTasks
           (map (fun task =>
                   if Z.eqb (Task.id task) id
                   then Task.with_edit (editTaskText st)
                          (or_null (editDueDate st)) (or_null (editDueTime st))
                          task
                   else task)
                (tasks st))
           st)))).

(** [cancelEdit()] *)
Definition cancelEdit (st : State) : State :=
  setEditDueTime [] (setEditDueDate [] (setEditTaskText []
    (setEditingTaskId None st))).

(** ** Derived view *)

(** [getFilteredTasks()] *)
Definition getFilteredTasks (st : State) : list Task.t :=
  if jsstring_eqb (activeFilter st) All then tasks st
  else filter (fun task => jsstring_eqb (Task.category task) (activeFilter st))
         (tasks st).

(** The number in the badge of the filter button [filter]:
    [tasks.filter(t => t.category === filter).length] when
    [filter !== 'All'], and [tasks.length] on the button [All]. *)
Definition badgeCount (filter_ : jsstring) (st : State) : nat :=
  if negb (jsstring_eqb filter_ All)
  then length (filter (fun t => jsstring_eqb (Task.category t) filter_)
                 (tasks st))
  else length (tasks st).

(** The footer's [tasks.filter(t => !t.completed).length]. *)
Definition remainingCount (st : State) : nat :=
  length (filter (fun t => negb (Task.completed t)) (tasks st)).

(** ** JavaScript values that JSON text denotes

    Numbers.  JavaScript holds a number as a binary64 value; the model holds
    the decimal value itself, in scientific form: [digits] without leading or
    trailing zero and the position [point] of the decimal point, for the value
    [0.d1 d2 ... dk * 10 ^ point].  For an integer of magnitude up to [2 ^ 53]
    (every value of [Date.now()] is one) the two agree: the binary64 value is
    the integer, and the digits [Number::toString] prints are its decimal
    digits.  The rounding of longer literals and the overflow to [Infinity]
    are outside the model. *)

Record Number := mkNumber {
  negative : bool;
  digits : list N;
  point : Z
}.

#[local] Unset Elimination Schemes.

Inductive value :=
| VNull
| VBool (b : bool)
| VNum (n : Number)
| VStr (s : jsstring)
| VArr (elements : list value)
| VObj (properties : list (jsstring * value)).

#[local] Set Elimination Schemes.

Fixpoint uint_digits (u : Decimal.uint) : list N :=
  match u with
  | Decimal.Nil => []
  | Decimal.D0 u => 0%N :: uint_digits u
  | Decimal.D1 u => 1%N :: uint_digits u
  | Decimal.D2 u => 2%N :: uint_digits u
  | Decimal.D3 u => 3%N :: uint_digits u
  | Decimal.D4 u => 4%N :: uint_digits u
  | Decimal.D5 u => 5%N :: uint_digits u
  | Decimal.D6 u => 6%N :: uint_digits u
  | Decimal.D7 u => 7%N :: uint_digits u
  | Decimal.D8 u => 8%N :: uint_digits u
  | Decimal.D9 u => 9%N :: uint_digits u
  end.

Fixpoint digits_uint (ds : list N) : Decimal.uint :=
  match ds with
  | [] => Decimal.Nil
  | d :: ds' =>
      let u := digits_uint ds' in
      match d with
      | 0%N => Decimal.D0 u
      | 1%N => Decimal.D1 u
      | 2%N => Decimal.D2 u
      | 3%N => Decimal.D3 u
      | 4%N => Decimal.D4 u
      | 5%N => Decimal.D5 u
      | 6%N => Decimal.D6 u
      | 7%N => Decimal.D7 u
      | 8%N => Decimal.D8 u
      | _ => Decimal.D9 u
      end
  end.

(** The decimal digits of a natural number, most significant first. *)
Definition decimal (n : N) : list N := uint_digits (N.to_uint n).

(** The natural number a sequence of decimal digits denotes. *)
Definition undecimal (ds : list N) : N := N.of_uint (digits_uint ds).

Fixpoint dropZeros (ds : list N) : list N :=
  match ds with
  | 0%N :: ds' => dropZeros ds'
  | _ => ds
  end.

Fixpoint countZeros (ds : list N) : nat :=
  match ds with
  | 0%N :: ds' => S (countZeros ds')
  | _ => O
  end.

Definition dropTrailingZeros (ds : list N) : list N :=
  rev (dropZeros (rev ds)).

(** The number a literal denotes: sign, digits [int] before the point, digits
    [frac] after it, and the exponent [e]. *)
Definition mkDecimal (neg : bool) (int frac : list N) (e : Z) : Number :=
  let all := int ++ frac in
  let ds := dropTrailingZeros (dropZeros all) in
  match ds with
  | [] => mkNumber neg [] 0
  | _ :: _ =>
      mkNumber neg ds (Z.of_nat (length int) + e - Z.of_nat (countZeros all))
  end.

(** An integral number, as [Date.now()] returns. *)
Definition Number_of_Z (z : Z) : Number :=
  mkDecimal (z <? 0) (decimal (Z.abs_N z)) [] 0.

Definition digitChar (d : N) : code_unit := (48 + d)%N.

Definition zeros (n : nat) : list N := repeat 0%N n.

(** The digits [d :: ds] with the point after the [n]-th one, as
    [Number::toString] lays them out: [k] digits, then [n - k] zeros, when
    [k <= n <= 21]; the point inside the digits when [0 < n <= 21]; [0.], then
    [- n] zeros, then the digits when [-6 < n <= 0]; and the exponent form
    otherwise. *)
Definition formatDigits (d : N) (ds : list N) (n : Z) : jsstring :=
  let k := Z.of_nat (length (d :: ds)) in
  if (k <=? n) && (n <=? 21) then
    map digitChar ((d :: ds) ++ zeros (Z.to_nat (n - k)))
  else if (0 <? n) && (n <=? 21) then
    map digitChar (firstn (Z.to_nat n) (d :: ds)) ++ JS "." ++
    map digitChar (skipn (Z.to_nat n) (d :: ds))
  else if (-6 <? n) && (n <=? 0) then
    JS "0." ++ map digitChar (zeros (Z.to_nat (- n)) ++ d :: ds)
  else
    digitChar d ::
    (match ds with [] => [] | _ :: _ => JS "." ++ map digitChar ds end) ++
    JS "e" ++ (if n - 1 <? 0 then JS "-" else JS "+") ++
    map digitChar (decimal (Z.abs_N (n - 1))).

(** [Number::toString(x)] in radix 10, for the finite [x] of the model. *)
Definition NumberToString (x : Number) : jsstring :=
  match digits x with
  | [] => JS "0"
  | d :: ds =>
      (if negative x then JS "-" else []) ++ formatDigits d ds (point x)
  end.

(** ** Objects: own properties in the order [OrdinaryOwnPropertyKeys] lists
    them, array indices first in ascending order, then the other keys in the
    order of their creation. *)

Definition isDigitChar (c : code_unit) : bool :=
  (N.leb 48 c && N.leb c 57)%N.

Definition digitValue (c : code_unit) : N := (c - 48)%N.

(** The array index a property key denotes, if it is the canonical numeric
    string of an integer below [2 ^ 32 - 1]. *)
Definition arrayIndex (k : jsstring) : option N :=
  match k with
  | [] => None
  | c :: k' =>
      if forallb isDigitChar k
         && (negb (N.eqb c 48) || match k' with [] => true | _ => false end)
         && Nat.leb (length k) 10
      then
        let i := undecimal (map digitValue k) in
        if (i <=? 4294967294)%N then Some i else None
      else None
  end.

Fixpoint hasKey (k : jsstring) (o : list (jsstring * value)) : bool :=
  match o with
  | [] => false
  | (k', _) :: o' => jsstring_eqb k' k || hasKey k o'
  end.

Fixpoint replaceKey (k : jsstring) (v : value) (o : list (jsstring * value))
  : list (jsstring * value) :=
  match o with
  | [] => []
  | (k', v') :: o' =>
      if jsstring_eqb k' k then (k', v) :: o' else (k', v') :: replaceKey k v o'
  end.

Fixpoint insertIndex (i : N) (k : jsstring) (v : value)
    (o : list (jsstring * value)) : list (jsstring * value) :=
  match o with
  | [] => [(k, v)]
  | (k', v') :: o' =>
      match arrayIndex k' with
      | Some j => if (j <? i)%N then (k', v') :: insertIndex i k v o'
                  else (k, v) :: o
      | None => (k, v) :: o
      end
  end.

(** [CreateDataProperty(o, k, v)] *)
Definition createDataProperty (k : jsstring) (v : value)
    (o : list (jsstring * value)) : list (jsstring * value) :=
  if hasKey k o then replaceKey k v o
  else match arrayIndex k with
       | Some i => insertIndex i k v o
       | None => o ++ [(k, v)]
       end.

(** The object an object literal with the members [ms] evaluates to. *)
Definition objectOf (ms : list (jsstring * value)) : list (jsstring * value) :=
  fold_left (fun o kv => createDataProperty (fst kv) (snd kv) o) ms [].

(** ** [JSON.stringify] *)

Definition hexChar (d : N) : code_unit :=
  if (d <? 10)%N then (48 + d)%N else (87 + d)%N.

(** [UnicodeEscape(c)]: a backslash, [u] and four lower-case hexadecimal
    digits. *)
Definition unicodeEscape (c : code_unit) : jsstring :=
  [92; 117; hexChar (c / 4096 mod 16); hexChar (c / 256 mod 16);
   hexChar (c / 16 mod 16); hexChar (c mod 16)]%N.

Definition isLeadingSurrogate (c : code_unit) : bool :=
  (N.leb 55296 c && N.leb c 56319)%N.

Definition isTrailingSurrogate (c : code_unit) : bool :=
  (N.leb 56320 c && N.leb c 57343)%N.

(** The text [QuoteJSONString] writes for one code unit that is not half of a
    surrogate pair. *)
Definition quoteUnit (c : code_unit) : jsstring :=
  (if N.eqb c 8 then [92; 98]
   else if N.eqb c 9 then [92; 116]
   else if N.eqb c 10 then [92; 110]
   else if N.eqb c 12 then [92; 102]
   else if N.eqb c 13 then [92; 114]
   else if N.eqb c 34 then [92; 34]
   else if N.eqb c 92 then [92; 92]
   else if (c <? 32) || isLeadingSurrogate c || isTrailingSurrogate c
        then unicodeEscape c
   else [c])%N.

Fixpoint quoteUnits (s : jsstring) : jsstring :=
  match s with
  | [] => []
  | c :: s' =>
      match s' with
      | d :: s'' =>
          if isLeadingSurrogate c && isTrailingSurrogate d
          then c :: d :: quoteUnits s''
          else quoteUnit c ++ quoteUnits s'
      | [] => quoteUnit c
      end
  end.

(** [QuoteJSONString(s)] *)
Definition QuoteJSONString (s : jsstring) : jsstring :=
  (34 :: quoteUnits s ++ [34])%N.

Fixpoint joinWith (sep : jsstring) (parts : list jsstring) : jsstring :=
  match parts with
  | [] => []
  | [p] => p
  | p :: ps => p ++ sep ++ joinWith sep ps
  end.

(** [JSON.stringify(v)], without replacer or indentation. *)
Fixpoint JSON_stringify (v : value) : jsstring :=
  match v with
  | VNull => JS "null"
  | VBool true => JS "true"
  | VBool false => JS "false"
  | VNum n => NumberToString n
  | VStr s => QuoteJSONString s
  | VArr l => JS "[" ++ joinWith (JS ",") (map JSON_stringify l) ++ JS "]"
  | VObj o =>
      JS "{" ++
      joinWith (JS ",")
        (map (fun kv => QuoteJSONString (fst kv) ++ JS ":" ++
                        JSON_stringify (snd kv)) o) ++
      JS "}"
  end.

(** ** [JSON.parse]

    The grammar of ECMA-404, read from a sequence of code units.  [None] is
    the [SyntaxError] of a text outside the grammar. *)

(** [JSONWhiteSpace]: tab, line feed, carriage return, space. *)
Definition isJSONWhiteSpace (c : code_unit) : bool :=
  (N.eqb c 9 || N.eqb c 10 || N.eqb c 13 || N.eqb c 32)%N.

Fixpoint skipWS (s : jsstring) : jsstring :=
  match s with
  | c :: s' => if isJSONWhiteSpace c then skipWS s' else s
  | [] => []
  end.

Definition hexValue (c : code_unit) : option N :=
  (if N.leb 48 c && N.leb c 57 then Some (c - 48)
   else if N.leb 97 c && N.leb c 102 then Some (c - 87)
   else if N.leb 65 c && N.leb c 70 then Some (c - 55)
   else None)%N.

Definition hex4 (a b c d : code_unit) : option code_unit :=
  match hexValue a, hexValue b, hexValue c, hexValue d with
  | Some x, Some y, Some z, Some t => Some (((x * 16 + y) * 16 + z) * 16 + t)%N
  | _, _, _, _ => None
  end.

(** The code unit of a single-character escape. *)
Definition escapeValue (c : code_unit) : option code_unit :=
  (if N.eqb c 34 then Some 34
   else if N.eqb c 47 then Some 47
   else if N.eqb c 92 then Some 92
   else if N.eqb c 98 then Some 8
   else if N.eqb c 102 then Some 12
   else if N.eqb c 110 then Some 10
   else if N.eqb c 114 then Some 13
   else if N.eqb c 116 then Some 9
   else None)%N.

Definition consChar (c : code_unit) (r : option (jsstring * jsstring))
  : option (jsstring * jsstring) :=
  match r with
  | Some (s, rest) => Some (c :: s, rest)
  | None => None
  end.

(** The characters of a string literal after its opening quote, up to and
    including the closing quote. *)
Fixpoint parseChars (s : jsstring) : option (jsstring * jsstring) :=
  match s with
  | [] => None
  | c :: r =>
      if N.eqb c 34 then Some ([], r)
      else if N.eqb c 92 then
        match r with
        | [] => None
        | e :: r1 =>
            if N.eqb e 117 then
              match r1 with
              | h1 :: h2 :: h3 :: h4 :: r2 =>
                  match hex4 h1 h2 h3 h4 with
                  | Some u => consChar u (parseChars r2)
                  | None => None
                  end
              | _ => None
              end
            else
              match escapeValue e with
              | Some u => consChar u (parseChars r1)
              | None => None
              end
        end
      else if (c <? 32)%N then None
      else consChar c (parseChars r)
  end.

(** The longest prefix of decimal digits, as digit values. *)
Fixpoint spanDigits (s : jsstring) : list N * jsstring :=
  match s with
  | c :: s' =>
      if isDigitChar c
      then let (ds, rest) := spanDigits s' in (digitValue c :: ds, rest)
      else ([], s)
  | [] => ([], [])
  end.

Definition parseFraction (s : jsstring) : option (list N * jsstring) :=
  match s with
  | c :: r =>
      if N.eqb c 46 then
        match spanDigits r with
        | ([], _) => None
        | (f, rest) => Some (f, rest)
        end
      else Some ([], s)
  | [] => Some ([], s)
  end.

Definition parseExponent (s : jsstring) : option (Z * jsstring) :=
  match s with
  | c :: r =>
      if N.eqb c 101 || N.eqb c 69 then
        let (neg, r1) :=
          match r with
          | g :: r' => if N.eqb g 43 then (false, r')
                       else if N.eqb g 45 then (true, r')
                       else (false, r)
          | [] => (false, r)
          end in
        match spanDigits r1 with
        | ([], _) => None
        | (ds, rest) =>
            let e := Z.of_N (undecimal ds) in
            Some (if neg then - e else e, rest)
        end
      else Some (0, s)
  | [] => Some (0, s)
  end.

(** A number after its sign: [0] or a digit sequence without leading
    zero, an optional fraction, an optional exponent. *)
Definition parseUnsigned (neg : bool) (s : jsstring)
  : option (Number * jsstring) :=
  match s with
  | c :: r =>
      if isDigitChar c then
        let (int, s2) := if N.eqb c 48 then ([0%N], r) else spanDigits s in
        match parseFraction s2 with
        | Some (frac, s3) =>
            match parseExponent s3 with
            | Some (e, s4) => Some (mkDecimal neg int frac e, s4)
            | None => None
            end
        | None => None
        end
      else None
  | [] => None
  end.

(** [JSONNumber]: an optional minus sign and the number after it. *)
Definition parseNumber (s : jsstring) : option (Number * jsstring) :=
  match s with
  | c :: r => if N.eqb c 45 then parseUnsigned true r else parseUnsigned false s
  | [] => None
  end.

(** [s] starts with the code units [w]: the rest of [s] after them. *)
Fixpoint stripPrefix (w s : jsstring) : option jsstring :=
  match w, s with
  | [], _ => Some s
  | a :: w', b :: s' => if N.eqb a b then stripPrefix w' s' else None
  | _ :: _, [] => None
  end.

Definition parseStringValue (r : jsstring) : option (value * jsstring) :=
  match parseChars r with
  | Some (str, rest) => Some (VStr str, rest)
  | None => None
  end.

Definition parseNumberValue (s : jsstring) : option (value * jsstring) :=
  match parseNumber s with
  | Some (n, rest) => Some (VNum n, rest)
  | None => None
  end.

Definition parseLiteral (w : jsstring) (v : value) (r : jsstring)
  : option (value * jsstring) :=
  match stripPrefix w r with
  | Some rest => Some (v, rest)
  | None => None
  end.

(** An array after its opening bracket, [elements] reading a non-empty
    element list up to and including the closing bracket. *)
Definition parseArray
    (elements : jsstring -> option (list value * jsstring)) (r : jsstring)
  : option (value * jsstring) :=
  match skipWS r with
  | d :: r' =>
      if N.eqb d 93 then Some (VArr [], r')
      else match elements r with
           | Some (l, rest) => Some (VArr l, rest)
           | None => None
           end
  | [] => None
  end.

(** An object after its opening brace, [members] reading a non-empty member
    list up to and including the closing brace. *)
Definition parseObject
    (members : jsstring -> option (list (jsstring * value) * jsstring))
    (r : jsstring) : option (value * jsstring) :=
  match skipWS r with
  | d :: r' =>
      if N.eqb d 125 then Some (VObj [], r')
      else match members r with
           | Some (ms, rest) => Some (VObj (objectOf ms), rest)
           | None => None
           end
  | [] => None
  end.

(** What follows an element: a comma and the [more] elements, or the closing
    bracket. *)
Definition parseElementsTail {A : Type}
    (more : jsstring -> option (list A * jsstring)) (close : code_unit)
    (x : A) (r : jsstring) : option (list A * jsstring) :=
  match skipWS r with
  | c :: r' =>
      if N.eqb c 44 then
        match more r' with
        | Some (l, rest) => Some (x :: l, rest)
        | None => None
        end
      else if N.eqb c close then Some ([x], r')
      else None
  | [] => None
  end.

(** A member: a string, a colon and the value [val] reads. *)
Definition parseMember (val : jsstring -> option (value * jsstring))
    (s : jsstring) : option ((jsstring * value) * jsstring) :=
  match skipWS s with
  | q :: r =>
      if N.eqb q 34 then
        match parseChars r with
        | Some (k, r1) =>
            match skipWS r1 with
            | c :: r2 =>
                if N.eqb c 58 then
                  match val r2 with
                  | Some (v, r3) => Some ((k, v), r3)
                  | None => None
                  end
                else None
            | [] => None
            end
        | None => None
        end
      else None
  | [] => None
  end.

Fixpoint parseValue (fuel : nat) (s : jsstring) : option (value * jsstring) :=
  match fuel with
  | O => None
  | S f =>
      match skipWS s with
      | [] => None
      | c :: r =>
          if N.eqb c 34 then parseStringValue r
          else if N.eqb c 91 then parseArray (parseElements f) r
          else if N.eqb c 123 then parseObject (parseMembers f) r
          else if N.eqb c 110 then parseLiteral (JS "ull") VNull r
          else if N.eqb c 116 then parseLiteral (JS "rue") (VBool true) r
          else if N.eqb c 102 then parseLiteral (JS "alse") (VBool false) r
          else parseNumberValue (c :: r)
      end
  end

with parseElements (fuel : nat) (s : jsstring)
  : option (list value * jsstring) :=
  match fuel with
  | O => None
  | S f =>
      match parseValue f s with
      | Some (v, r) => parseElementsTail (parseElements f) 93%N v r
      | None => None
      end
  end

with parseMembers (fuel : nat) (s : jsstring)
  : option (list (jsstring * value) * jsstring) :=
  match fuel with
  | O => None
  | S f =>
      match parseMember (parseValue f) s with
      | Some (kv, r) => parseElementsTail (parseMembers f) 125%N kv r
      | None => None
      end
  end.

(** ** Errors and effects

    The hooks run in an environment: the [localStorage] of the page, the
    console, the ref [isFirstRender] and the [tasks] cell as the hooks see it,
    which holds whatever value [setTasks] was given. *)

(** What the hooks can have thrown at them: the [SyntaxError] of
    [JSON.parse] and the [QuotaExceededError] of [localStorage.setItem]. *)
Inductive Error := SyntaxError | QuotaExceededError.

(** The storage area of the page: the items it holds, and the quota of the
    user agent, which decides from the items, the key and the new value
    whether a write is accepted. *)
Record Storage := mkStorage {
  items : jsstring -> option jsstring;
  accepts : (jsstring -> option jsstring) -> jsstring -> jsstring -> bool
}.

(** Whether the storage, as it is, accepts [setItem(key, v)]. *)
Definition writable (storage : Storage) (key v : jsstring) : bool :=
  accepts storage (items storage) key v.

Inductive LogEntry := ConsoleError (message : jsstring) (error : Error).

Record Env := mkEnv {
  localStorage : Storage;
  console : list LogEntry;
  isFirstRender : bool;
  tasksCell : value
}.

Inductive Completion (A : Type) :=
| Normal (a : A) (env : Env)
| Throw (e : Error) (env : Env).

Arguments Normal {A} a env.
Arguments Throw {A} e env.

Definition M (A : Type) := Env -> Completion A.

Definition ret {A} (a : A) : M A := fun env => Normal a env.

Definition bind {A B} (c : M A) (k : A -> M B) : M B :=
  fun env =>
    match c env with
    | Normal a env' => k a env'
    | Throw e env' => Throw e env'
    end.

Notation "x <- c ;; k" := (bind c (fun x => k))
  (at level 61, c at next level, right associativity).
Notation "c ;;; k" := (bind c (fun _ => k))
  (at level 61, right associativity).

(** [try { body } catch (error) { handler }] *)
Definition tryCatch {A} (body : M A) (handler : Error -> M A) : M A :=
  fun env =>
    match body env with
    | Normal a env' => Normal a env'
    | Throw e env' => handler e env'
    end.

(** A computation that returns or throws without touching the environment. *)
Definition lift {A} (r : Error + A) : M A :=
  fun env =>
    match r with
    | inr a => Normal a env
    | inl e => Throw e env
    end.

(** [localStorage.getItem(key)]: the stored string or [null]. *)
Definition getItem (key : jsstring) : M (option jsstring) :=
  fun env => Normal (items (localStorage env) key) env.

(** The storage after an accepted [setItem(key, v)]. *)
Definition stored (key v : jsstring) (storage : Storage) : Storage :=
  mkStorage
    (fun k => if jsstring_eqb k key then Some v else items storage k)
    (accepts storage).

(** [localStorage.setItem(key, v)]: the item is set, or the call throws a
    [QuotaExceededError] and the storage is as it was. *)
Definition setItem (key v : jsstring) : M unit :=
  fun env =>
    if writable (localStorage env) key v then
      Normal tt
        (mkEnv (stored key v (localStorage env))
           (console env) (isFirstRender env) (tasksCell env))
    else Throw QuotaExceededError env.

(** [console.error(message, error)] *)
Definition console_error (message : jsstring) (error : Error) : M unit :=
  fun env =>
    Normal tt
      (mkEnv (localStorage env) (console env ++ [ConsoleError message error])
         (isFirstRender env) (tasksCell env)).

(** [setTasks(v)] as the hooks call it. *)
Definition setTasksCell (v : value) : M unit :=
  fun env =>
    Normal tt (mkEnv (localStorage env) (console env) (isFirstRender env) v).

Definition getTasksCell : M value := fun env => Normal (tasksCell env) env.

Definition getIsFirstRender : M bool :=
  fun env => Normal (isFirstRender env) env.

Definition setIsFirstRender (b : bool) : M unit :=
  fun env =>
    Normal tt (mkEnv (localStorage env) (console env) b (tasksCell env)).

(** [JSON.parse(text)]: the value, or the [SyntaxError] it throws. *)
Definition JSON_parse (text : jsstring) : Error + value :=
  match parseValue (S (length text)) text with
  | Some (v, rest) =>
      match skipWS rest with
      | [] => inr v
      | _ :: _ => inl SyntaxError
      end
  | None => inl SyntaxError
  end.

(** ** The two hooks *)

Definition tasksKey : jsstring := JS "tasks".

Definition loadErrorMessage : jsstring :=
  JS "Error loading tasks from localStorage:".

(** The first [useEffect]: load the tasks on mount.  [if (savedTasks)] holds
    for a string that is neither [null] nor empty. *)
Definition loadEffect : M unit :=
  savedTasks <- getItem tasksKey ;;
  match savedTasks with
  | Some (c :: s) =>
      tryCatch
        (parsedTasks <- lift (JSON_parse (c :: s)) ;;
         setTasksCell parsedTasks)
        (fun error => console_error loadErrorMessage error)
  | _ => ret tt
  end.

(** The second [useEffect]: save the tasks whenever they change, except on
    the first render.  Nothing catches what [setItem] throws. *)
Definition saveEffect : M unit :=
  first <- getIsFirstRender ;;
  if first then setIsFirstRender false
  else
    tasks_ <- getTasksCell ;;
    setItem tasksKey (JSON_stringify tasks_).

(** The environment in which the component mounts: [useState([])],
    [useRef(true)]. *)
Definition mountEnv (storage : Storage) : Env :=
  mkEnv storage [] true (VArr []).

(** The effects of the first render, in the order the hooks are declared. *)
Definition mount : M unit := loadEffect ;;; saveEffect.

(** A quota that accepts every write. *)
Definition unlimited
  : (jsstring -> option jsstring) -> jsstring -> jsstring -> bool :=
  fun _ _ _ => true.

(** A quota of [n] code units for a value. *)
Definition roomFor (n : nat)
  : (jsstring -> option jsstring) -> jsstring -> jsstring -> bool :=
  fun _ _ v => Nat.leb (length v) n.

(** A storage that holds [text] under the key of the tasks and nothing
    else, with room for every write. *)
Definition storageWith (text : jsstring) : Storage :=
  mkStorage (fun k => if jsstring_eqb k tasksKey then Some text else None)
    unlimited.

Definition emptyStorage : Storage := mkStorage (fun _ => None) unlimited.

(** ** Tasks as JavaScript values *)

Definition nullable (v : option jsstring) : value :=
  match v with
  | Some s => VStr s
  | None => VNull
  end.

(** The object [{ id, text, completed, category, dueDate, dueTime }]. *)
Definition taskObject (task : Task.t) : value :=
  VObj [ (JS "id", VNum (Number_of_Z (Task.id task)));
         (JS "text", VStr (Task.text task));
         (JS "completed", VBool (Task.completed task));
         (JS "category", VStr (Task.category task));
         (JS "dueDate", nullable (Task.dueDate task));
         (JS "dueTime", nullable (Task.dueTime task)) ].

(** The array the [tasks] cell holds for a list of tasks. *)
Definition tasksArray (l : list Task.t) : value := VArr (map taskObject l).

(** JSON text written with an apostrophe for each double quote. *)
Definition JSONText (s : string) : jsstring :=
  map (fun c => if N.eqb c 39 then 34%N else c) (JS s).

(** ** The component as a transition system

    One event per render: what the user does to the form, to a task or to a
    filter button.  [ClickAdd now] is the button [Add] or the Enter key in
    the text field, and carries the value of [Date.now()]; [ClickUpdate] and
    [ClickCancel] are the buttons of the edit form or the Enter and Escape
    keys in it. *)

Inductive Event :=
| TypeNewTask (v : jsstring)
| SelectCategory (v : jsstring)
| PickDueDate (v : jsstring)
| PickDueTime (v : jsstring)
| ClickAdd (now : Z)
| Toggle (id : Z)
| Delete (id : Z)
| StartEdit (id : Z) (currentText : jsstring)
    (currentDueDate currentDueTime : option jsstring)
| TypeEditText (v : jsstring)
| PickEditDueDate (v : jsstring)
| PickEditDueTime (v : jsstring)
| ClickUpdate (id : Z)
| ClickCancel
| ClickFilter (v : jsstring).

Definition handle (ev : Event) (st : State) : State :=
  match ev with
  | TypeNewTask v => setNewTask v st
  | SelectCategory v => setSelectedCategory v st
  | PickDueDate v => setDueDate v st
  | PickDueTime v => setDueTime v st
  | ClickAdd now => addTask now st
  | Toggle id => toggleTask id st
  | Delete id => deleteTask id st
  | StartEdit id x d h => startEditTask id x d h st
  | TypeEditText v => setEditTaskText v st
  | PickEditDueDate v => setEditDueDate v st
  | PickEditDueTime v => setEditDueTime v st
  | ClickUpdate id => updateTask id st
  | ClickCancel => cancelEdit st
  | ClickFilter v => setActiveFilter v st
  end.

Definition run (evs : list Event) (st : State) : State :=
  fold_left (fun s ev => handle ev s) evs st.

(** The identifiers of the tasks of a state, in order. *)
Definition ids (st : State) : list Z := map Task.id (tasks st).

(** The clock readings of the additions of a trace. *)
Fixpoint clockReadings (evs : list Event) : list Z :=
  match evs with
  | [] => []
  | ClickAdd now :: evs' => now :: clockReadings evs'
  | _ :: evs' => clockReadings evs'
  end.

(** ** The stored format

    The format the specification expects of the stored text: an ordered
    sequence of task records.  A text is in it when it parses to the array
    of the objects of a list of tasks. *)
Definition expectedFormat (text : jsstring) : Prop :=
  exists l : list Task.t, JSON_parse text = inr (tasksArray l).

(** ** Values that [JSON.stringify] and [JSON.parse] preserve *)

(** A number in scientific form: decimal digits, the first and the last one
    not zero, and for zero no digit, the point at 0 and no sign. *)
Definition canonical (x : Number) : Prop :=
  Forall (fun d => d < 10)%N (digits x) /\
  match digits x with
  | [] => point x = 0 /\ negative x = false
  | d :: _ => d <> 0%N /\ last (digits x) 1%N <> 0%N
  end.

(** What may follow a number in a text: nothing, or a code unit that cannot
    continue it. *)
Definition delimited (rest : jsstring) : Prop :=
  match rest with
  | [] => True
  | c :: _ =>
      isDigitChar c = false /\ c <> 46%N /\ c <> 101%N /\ c <> 69%N
  end.

Definition noDigitAhead (rest : jsstring) : Prop :=
  match rest with
  | [] => True
  | c :: _ => isDigitChar c = false
  end.

(** A value built as [JSON.parse] builds values: numbers in scientific form
    and the properties of every object in the order of their creation. *)
#[local] Unset Elimination Schemes.

Inductive wellFormed : value -> Prop :=
| wf_null : wellFormed VNull
| wf_bool b : wellFormed (VBool b)
| wf_num n : canonical n -> wellFormed (VNum n)
| wf_str s : wellFormed (VStr s)
| wf_arr l : Forall wellFormed l -> wellFormed (VArr l)
| wf_obj o :
    objectOf o = o -> Forall (fun kv => wellFormed (snd kv)) o ->
    wellFormed (VObj o).

#[local] Set Elimination Schemes.

(** Induction on values, with the hypothesis on every element of an array
    and on every property value of an object. *)
Fixpoint value_induction (P : value -> Prop)
    (Hnull : P VNull) (Hbool : forall b, P (VBool b))
    (Hnum : forall n, P (VNum n)) (Hstr : forall s, P (VStr s))
    (Harr : forall l, Forall P l -> P (VArr l))
    (Hobj : forall o, Forall (fun kv => P (snd kv)) o -> P (VObj o))
    (v : value) {struct v} : P v :=
  match v with
  | VNull => Hnull
  | VBool b => Hbool b
  | VNum n => Hnum n
  | VStr s => Hstr s
  | VArr l =>
      Harr l
        ((fix all (l : list value) : Forall P l :=
            match l with
            | [] => Forall_nil P
            | x :: l' =>
                Forall_cons x
                  (value_induction P Hnull Hbool Hnum Hstr Harr Hobj x)
                  (all l')
            end) l)
  | VObj o =>
      Hobj o
        ((fix all (o : list (jsstring * value))
            : Forall (fun kv => P (snd kv)) o :=
            match o with
            | [] => Forall_nil _
            | kv :: o' =>
                Forall_cons kv
                  (value_induction P Hnull Hbool Hnum Hstr Harr Hobj (snd kv))
                  (all o')
            end) o)
  end.

(** The first code unit of a stringified value: it is not white space, and
    it closes no array and no object. *)
Definition opensValue (c : code_unit) : Prop :=
  isJSONWhiteSpace c = false /\ c <> 93%N /\ c <> 125%N.

(** The text of a member of an object. *)
Definition memberText (kv : jsstring * value) : jsstring :=
  QuoteJSONString (fst kv) ++ JS ":" ++ JSON_stringify (snd kv).

(** [v] reads back: whatever follows its text, with enough fuel the parser
    returns [v] and what follows. *)
Definition readsBack (v : value) : Prop :=
  forall (fuel : nat) (rest : jsstring),
    (length (JSON_stringify v) < fuel)%nat -> delimited rest ->
    parseValue fuel (JSON_stringify v ++ rest) = Some (v, rest).

(** [Number.isSafeInteger]: an integer that a JavaScript number holds
    exactly, as every value of [Date.now()] is. *)
Definition safeInteger (z : Z) : Prop := Z.abs z <= 9007199254740991.

(** ** The order of the properties of an object *)

Definition keys (o : list (jsstring * value)) : list jsstring := map fst o.

(** [precedes k k']: the key [k] may come before the key [k'] among the
    properties of an object. *)
Definition precedes (k k' : jsstring) : Prop :=
  k <> k' /\
  match arrayIndex k, arrayIndex k' with
  | Some i, Some j => (i < j)%N
  | Some _, None => True
  | None, Some _ => False
  | None, None => True
  end.

(** The properties of the object are in the order of creation. *)
Definition ordered (o : list (jsstring * value)) : Prop :=
  StronglySorted precedes (keys o).

#[local] Unset Elimination Schemes.

(** The properties of every object of the value are in the order of their
    creation. *)
Inductive objectsInOrder : value -> Prop :=
| inOrder_null : objectsInOrder VNull
| inOrder_bool b : objectsInOrder (VBool b)
| inOrder_num n : objectsInOrder (VNum n)
| inOrder_str s : objectsInOrder (VStr s)
| inOrder_arr l : Forall objectsInOrder l -> objectsInOrder (VArr l)
| inOrder_obj o :
    objectOf o = o -> Forall (fun kv => objectsInOrder (snd kv)) o ->
    objectsInOrder (VObj o).

#[local] Set Elimination Schemes.

(** ** Collections of task records

    A number that the model holds as JavaScript does.  JavaScript keeps the
    binary64 value nearest to a literal, and [Number::toString] prints the
    shortest digits that read back to that value.  For an integer of
    magnitude at most [2 ^ 53 - 1], and for a decimal of at most fifteen
    significant digits and of magnitude from [1e-300] to [1e300], these are
    the digits of the literal, and distinct literals are distinct values.
    Negative zero is left out: it is not in scientific form.  So are the
    literals beyond the range, which JavaScript reads as [Infinity] or as a
    zero, and the longer literals, which it rounds. *)
Definition modelled (x : Number) : Prop :=
  canonical x /\
  ((exists z, safeInteger z /\ x = Number_of_Z z) \/
   ((length (digits x) <= 15)%nat /\ -300 < point x <= 300)).

(** The object [{ id, text, completed, category, dueDate, dueTime }] with
    the number [id]: a task as the save hook writes one. *)
Definition recordObject (id : Number) (text : jsstring) (completed : bool)
    (category : jsstring) (dueDate dueTime : option jsstring) : value :=
  VObj [ (JS "id", VNum id);
         (JS "text", VStr text);
         (JS "completed", VBool completed);
         (JS "category", VStr category);
         (JS "dueDate", nullable dueDate);
         (JS "dueTime", nullable dueTime) ].

(** A task record: the six fields with a number, two strings, a boolean
    and two strings or [null]. *)
Definition taskRecord (v : value) : Prop :=
  exists id text completed category dueDate dueTime,
    modelled id /\
    v = recordObject id text completed category dueDate dueTime.

(** A collection: an array of task records. *)
Definition collection (v : value) : Prop :=
  exists records, v = VArr records /\ Forall taskRecord records.




(** ** Selections

    [Selects P l l']: [l'] holds exactly the elements of [l] that satisfy
    [P], each as often as in [l] and in the order they have in [l]. *)

Inductive Selects {A : Type} (P : A -> Prop) : list A -> list A -> Prop :=
| Selects_nil : Selects P [] []
| Selects_keep x l l' : P x -> Selects P l l' -> Selects P (x :: l) (x :: l')
| Selects_drop x l l' : ~ P x -> Selects P l l' -> Selects P (x :: l) l'.

Definition jsstring_dec : forall a b : jsstring, {a = b} + {a <> b} :=
  list_eq_dec N.eq_dec.

(** The number of tasks of a list whose category is [c]. *)
Definition countByCategory (c : jsstring) (l : list Task.t) : nat :=
  count_occ jsstring_dec (map Task.category l) c.

(** ** Sample states *)

(** The form holding a blank text. *)
Definition blankForm : State :=
  setNewTask (JS "   ") initialState.

(** The form filled in for a task with a due date. *)
Definition milkForm : State :=
  setDueDate (JS "2025-12-01")
    (setSelectedCategory Shopping (setNewTask (JS " Buy milk ") initialState)).

(** Three tasks, the second one being edited. *)
Definition sampleTasks : list Task.t :=
  [ Task.mk 1000 (JS "Buy milk") false Shopping None None;
    Task.mk 2000 (JS "Report") true Work (Some (JS "2025-12-01"))
      (Some (JS "09:00"));
    Task.mk 3000 (JS "Call bank") false Finance None None ].

Definition sampleState : State :=
  mkState sampleTasks [] (Some 2000) (JS "Report v2") (JS "2025-12-24") []
    Personal [] [] All.

(** The same state with a blank text in the edit form. *)
Definition sampleBlankEdit : State := setEditTaskText (JS " ") sampleState.

(** A stored text of one task, and the task list it denotes. *)
Definition milkText : jsstring :=
  JSONText
    ("[{'id':1000,'text':'Buy milk','completed':false," ++
     "'category':'Shopping','dueDate':null,'dueTime':'09:00'}]").

Definition milkTasks : list Task.t :=
  [Task.mk 1000 (JS "Buy milk") false Shopping None (Some (JS "09:00"))].

(** ** Keys, rows and messages of [TodoApp] *)

Definition Enter : jsstring := JS "Enter".
Definition Escape : jsstring := JS "Escape".

(** [handleKeyPress(e)], with [key] the value of [e.key] and [now] the value
    [Date.now()] returns if [addTask] runs. *)
Definition handleKeyPress (key : jsstring) (now : Z) (st : State) : State :=
  if jsstring_eqb key Enter then addTask now st else st.

(** [handleEditKeyPress(e, id)] *)
Definition handleEditKeyPress (key : jsstring) (id : Z) (st : State) : State :=
  if jsstring_eqb key Enter then updateTask id st
  else if jsstring_eqb key Escape then cancelEdit st
  else st.

(** [editingTaskId === task.id] *)
Definition isEditing (st : State) (task : Task.t) : bool :=
  match editingTaskId st with
  | Some id => Z.eqb id (Task.id task)
  | None => false
  end.

(** The rows of the list that show the edit form in place of the task. *)
Definition editRows (st : State) : list Task.t :=
  filter (isEditing st) (getFilteredTasks st).

Definition noTasksYet : jsstring := JS "No tasks yet. Add one to get started!".

(** [`No tasks in ${activeFilter} category.`] *)
Definition noTasksIn (filter_ : jsstring) : jsstring :=
  JS "No tasks in " ++ filter_ ++ JS " category.".

(** The message shown in place of the list, when
    [filteredTasks.length === 0]. *)
Definition emptyMessage (st : State) : option jsstring :=
  match getFilteredTasks st with
  | [] =>
      Some (match tasks st with
            | [] => noTasksYet
            | _ :: _ => noTasksIn (activeFilter st)
            end)
  | _ :: _ => None
  end.

(** ** [TodoItem] *)

Module TodoItem.

(** What reading a property of an object literal gives: a string of the
    literal, or what the name inherits from [Object.prototype] (a function,
    or the prototype itself for [__proto__]), which is not a string and is
    truthy. *)
Inductive Looked :=
| Str (s : jsstring)
| Inherited (name : jsstring).

(** The own property names of [Object.prototype]. *)
Definition objectPrototypeNames : list jsstring :=
  [ JS "constructor"; JS "__defineGetter__"; JS "__defineSetter__";
    JS "hasOwnProperty"; JS "__lookupGetter__"; JS "__lookupSetter__";
    JS "isPrototypeOf"; JS "propertyIsEnumerable"; JS "toString";
    JS "valueOf"; JS "__proto__"; JS "toLocaleString" ].

Definition purple : jsstring := JS "#6f42c1".
Definition blue : jsstring := JS "#007bff".
Definition green : jsstring := JS "#28a745".
Definition red : jsstring := JS "#dc3545".
Definition yellow : jsstring := JS "#ffc107".
Definition gray : jsstring := JS "#6c757d".

(** The object literal [colors] of [getCategoryColor]. *)
Definition colors : list (jsstring * jsstring) :=
  [ (Personal, purple); (Work, blue); (Shopping, green); (Health, red);
    (Finance, yellow); (Other, gray) ].

Fixpoint ownProperty (k : jsstring) (o : list (jsstring * jsstring))
  : option jsstring :=
  match o with
  | [] => None
  | (k', v) :: o' => if jsstring_eqb k' k then Some v else ownProperty k o'
  end.

(** [getCategoryColor(category)]: [colors[category] || '#6c757d'].  The
    strings of [colors] are not empty, so [||] keeps them. *)
Definition getCategoryColor (category : jsstring) : Looked :=
  match ownProperty category colors with
  | Some c => Str c
  | None =>
      if existsb (jsstring_eqb category) objectPrototypeNames
      then Inherited category
      else Str gray
  end.

(** [getTextColor(category)] *)
Definition getTextColor (category : jsstring) : jsstring :=
  if jsstring_eqb category Finance then JS "#000" else JS "#fff".

(** [s.split(sep)] for a separator of one code unit. *)
Fixpoint split (sep : code_unit) (s : jsstring) : list jsstring :=
  match s with
  | [] => [[]]
  | c :: s' =>
      if N.eqb c sep then [] :: split sep s'
      else match split sep s' with
           | p :: ps => (c :: p) :: ps
           | [] => [[c]]
           end
  end.

(** The longest prefix of digits of the radix, as digit values. *)
Fixpoint spanRadix (radix : N) (s : jsstring) : list N :=
  match s with
  | c :: s' =>
      match hexValue c with
      | Some d => if (d <? radix)%N then d :: spanRadix radix s' else []
      | None => []
      end
  | [] => []
  end.

Definition radixValue (radix : N) (ds : list N) : N :=
  fold_left (fun a d => (a * radix + d)%N) ds 0%N.

(** [parseInt(s)] without radix: leading white space is skipped, then a
    sign, then [0x] or [0X] selects radix 16, and the longest prefix of
    digits is read; [None] is [NaN], for no digit.  The integer is kept as it
    is: JavaScript holds it exactly up to [2 ^ 53]. *)
Definition parseInt (s : jsstring) : option Z :=
  let s1 := trimStart s in
  let (neg, s2) :=
    match s1 with
    | c :: r => if N.eqb c 45 then (true, r)
                else if N.eqb c 43 then (false, r)
                else (false, s1)
    | [] => (false, s1)
    end in
  let (radix, s3) :=
    match s2 with
    | a :: b :: r =>
        if N.eqb a 48 && (N.eqb b 120 || N.eqb b 88) then (16%N, r)
        else (10%N, s2)
    | _ => (10%N, s2)
    end in
  match spanRadix radix s3 with
  | [] => None
  | ds =>
      let n := Z.of_N (radixValue radix ds) in
      Some (if neg then - n else n)
  end.

(** [`${n}`] for an integer [n]. *)
Definition integerString (n : Z) : jsstring := NumberToString (Number_of_Z n).

(** [hour >= 12 ? 'PM' : 'AM'], false for [NaN]. *)
Definition period (hour : option Z) : jsstring :=
  match hour with
  | Some h => if h >=? 12 then JS "PM" else JS "AM"
  | None => JS "AM"
  end.

(** [hour % 12 || 12]: the remainder has the sign of [hour]; zero and [NaN]
    are falsy. *)
Definition displayHour (hour : option Z) : Z :=
  match hour with
  | Some h => if Z.rem h 12 =? 0 then 12 else Z.rem h 12
  | None => 12
  end.

(** [formatTime(timeString)], for a string or [null]: the part before the
    first colon is the hours, the part after it up to the next colon the
    minutes, [undefined] when there is no colon. *)
Definition formatTime (timeString : option jsstring) : jsstring :=
  match timeString with
  | None | Some [] => []
  | Some s =>
      let parts := split 58%N s in
      let hours := match parts with h :: _ => h | [] => JS "undefined" end in
      let minutes :=
        match parts with _ :: m :: _ => m | _ => JS "undefined" end in
      let hour := parseInt hours in
      integerString (displayHour hour) ++ JS ":" ++ minutes ++ JS " " ++
      period hour
  end.

End TodoItem.

(** ** Vocabulary of the properties *)

(** [Subsequence l' l]: [l'] is [l] with some elements left out. *)
Inductive Subsequence {A : Type} : list A -> list A -> Prop :=
| Subsequence_nil : Subsequence [] []
| Subsequence_keep x l' l : Subsequence l' l -> Subsequence (x :: l') (x :: l)
| Subsequence_skip x l' l : Subsequence l' l -> Subsequence l' (x :: l).

(** A task as the handlers make them: a text that is not blank, and no
    empty string as due date or due time. *)
Definition wellMade (task : Task.t) : Prop :=
  trim (Task.text task) <> [] /\
  Task.dueDate task <> Some [] /\
  Task.dueTime task <> Some [].

(** The category events of a trace pick options of the [<select>]. *)
Fixpoint selectsOptions (evs : list Event) : Prop :=
  match evs with
  | [] => True
  | SelectCategory v :: evs' => In v categories /\ selectsOptions evs'
  | _ :: evs' => selectsOptions evs'
  end.

(** A time of day as an [<input type="time">] gives it: the hour on two
    digits, a colon, the minutes. *)
Definition timeValue (h : N) (minutes : jsstring) : jsstring :=
  [digitChar (h / 10); digitChar (h mod 10)] ++ JS ":" ++ minutes.

(** The hour of the twelve-hour clock. *)
Definition hour12 (h : N) : N :=
  if (h mod 12 =? 0)%N then 12%N else (h mod 12)%N.

(** A state with two tasks of the same category, among three. *)
Definition errandsState : State :=
  mkState
    [ Task.mk 1000 (JS "Buy milk") false Shopping None None;
      Task.mk 2000 (JS "Report") true Work (Some (JS "2025-12-01")) None;
      Task.mk 3000 (JS "Buy bread") false Shopping None (Some (JS "18:30")) ]
    [] None [] [] [] Personal [] [] All.

(** An event that fills a field of the edit form. *)
Definition fillsEditForm (ev : Event) : Prop :=
  match ev with
  | TypeEditText _ | PickEditDueDate _ | PickEditDueTime _ => True
  | _ => False
  end.

(** * Properties *)

(** ** Strings *)

Lemma jsstring_eqb_eq (a b : jsstring) : jsstring_eqb a b = true <-> a = b.
Proof.
  revert b; induction a as [|x a IH]; intros [|y b]; simpl;
    try (split; [discriminate | discriminate]); try tauto.
  rewrite andb_true_iff, N.eqb_eq, IH.
  split; [intros [-> ->]; reflexivity | intros H; injection H; auto].
Qed.

Lemma jsstring_eqb_refl (a : jsstring) : jsstring_eqb a a = true.
Proof. apply jsstring_eqb_eq; reflexivity. Qed.

Lemma jsstring_eqb_neq (a b : jsstring) : jsstring_eqb a b = false <-> a <> b.
Proof.
  rewrite <- jsstring_eqb_eq. destruct (jsstring_eqb a b); split; congruence.
Qed.

Lemma or_null_empty : or_null [] = None.
Proof. reflexivity. Qed.

Lemma or_null_nonempty (s : jsstring) : s <> [] -> or_null s = Some s.
Proof. destruct s; [congruence | reflexivity]. Qed.

Lemma trim_blank_eqb (s : jsstring) :
  jsstring_eqb (trim s) [] = true <-> trim s = [].
Proof. apply jsstring_eqb_eq. Qed.

(** ** The handlers act on the task list as [map], [filter] and append *)

Lemma tasks_addTask_rejected (now : Z) (st : State) :
  trim (newTask st) = [] -> addTask now st = st.
Proof.
  intros H. unfold addTask. rewrite H. reflexivity.
Qed.

Lemma tasks_addTask_accepted (now : Z) (st : State) :
  trim (newTask st) <> [] ->
  tasks (addTask now st) =
  tasks st ++ [Task.mk now (newTask st) false (selectedCategory st)
                 (or_null (dueDate st)) (or_null (dueTime st))].
Proof.
  intros H. unfold addTask.
  destruct (jsstring_eqb (trim (newTask st)) []) eqn:E.
  - apply jsstring_eqb_eq in E. contradiction.
  - reflexivity.
Qed.

Lemma ids_toggleTask (id : Z) (st : State) : ids (toggleTask id st) = ids st.
Proof.
  unfold ids, toggleTask; simpl. rewrite map_map. apply map_ext.
  intros t. destruct (Task.id t =? id); reflexivity.
Qed.

Lemma ids_updateTask (id : Z) (st : State) : ids (updateTask id st) = ids st.
Proof.
  unfold ids, updateTask.
  destruct (jsstring_eqb (trim (editTaskText st)) []); [reflexivity|].
  simpl. rewrite map_map. apply map_ext.
  intros t. destruct (Task.id t =? id); reflexivity.
Qed.

Lemma ids_deleteTask (id : Z) (st : State) :
  ids (deleteTask id st) = filter (fun i => negb (i =? id)) (ids st).
Proof.
  unfold ids, deleteTask; simpl.
  induction (tasks st) as [|t l IH]; simpl; [reflexivity|].
  destruct (Task.id t =? id); simpl; rewrite IH; reflexivity.
Qed.

Lemma ids_addTask (now : Z) (st : State) :
  ids (addTask now st) = ids st \/ ids (addTask now st) = ids st ++ [now].
Proof.
  unfold ids, addTask.
  destruct (jsstring_eqb (trim (newTask st)) []); [left; reflexivity|].
  right. simpl. rewrite map_app. reflexivity.
Qed.

Lemma NoDup_filter {A} (f : A -> bool) (l : list A) :
  NoDup l -> NoDup (filter f l).
Proof.
  induction 1 as [|x l Hx Hl IH]; simpl; [constructor|].
  destruct (f x); [constructor; [|exact IH]|exact IH].
  intros Hin. apply filter_In in Hin. tauto.
Qed.

Lemma NoDup_snoc {A} (l : list A) (x : A) :
  NoDup l -> ~ In x l -> NoDup (l ++ [x]).
Proof.
  intros Hl Hx. induction Hl as [|y l Hy Hl IH]; simpl.
  - constructor; [intros []|constructor].
  - constructor.
    + rewrite in_app_iff. simpl. intros [H|[H|[]]]; [tauto|].
      apply Hx. left. symmetry. exact H.
    + apply IH. intros H. apply Hx. right. exact H.
Qed.

(** Every handler but the addition keeps the identifiers distinct, and the
    addition does when the clock reading is not an identifier in use. *)
Lemma NoDup_ids_handle (ev : Event) (st : State) :
  NoDup (ids st) ->
  (forall now, ev = ClickAdd now -> ~ In now (ids st)) ->
  NoDup (ids (handle ev st)).
Proof.
  intros Hnd Hfresh. destruct ev; simpl; try exact Hnd.
  - destruct (ids_addTask now st) as [E|E]; rewrite E; [exact Hnd|].
    apply NoDup_snoc; [exact Hnd|]. apply Hfresh. reflexivity.
  - rewrite ids_toggleTask. exact Hnd.
  - rewrite ids_deleteTask. apply NoDup_filter. exact Hnd.
  - rewrite ids_updateTask. exact Hnd.
Qed.

(** No handler but the addition brings in an identifier. *)
Lemma In_ids_handle (ev : Event) (st : State) (i : Z) :
  In i (ids (handle ev st)) ->
  In i (ids st) \/ ev = ClickAdd i.
Proof.
  destruct ev; simpl; auto.
  - destruct (ids_addTask now st) as [E|E]; rewrite E; auto.
    rewrite in_app_iff. simpl. intros [H|[H|[]]]; subst; auto.
  - rewrite ids_toggleTask. auto.
  - rewrite ids_deleteTask. intros H. apply filter_In in H. tauto.
  - rewrite ids_updateTask. auto.
Qed.

Lemma In_ids_run (evs : list Event) (st : State) (i : Z) :
  In i (ids (run evs st)) ->
  In i (ids st) \/ In i (clockReadings evs).
Proof.
  revert st. induction evs as [|ev evs IH]; intros st; simpl; auto.
  intros H. apply IH in H. destruct H as [H|H].
  - apply In_ids_handle in H. destruct H as [H|H]; [auto|].
    subst ev. right. left. reflexivity.
  - right. destruct ev; simpl; auto.
Qed.

(** Along a trace whose additions read a clock value that is not in use, the
    identifiers stay distinct. *)
Lemma NoDup_ids_run (evs : list Event) (st : State) :
  NoDup (ids st) ->
  NoDup (clockReadings evs) ->
  (forall now, In now (clockReadings evs) -> ~ In now (ids st)) ->
  NoDup (ids (run evs st)).
Proof.
  revert st. induction evs as [|ev evs IH]; intros st Hnd Hclk Hfresh; simpl.
  - exact Hnd.
  - apply IH.
    + apply NoDup_ids_handle; [exact Hnd|].
      intros now ->. apply Hfresh. left. reflexivity.
    + destruct ev; simpl in *; try exact Hclk. inversion Hclk; assumption.
    + intros now Hin Hin'. apply In_ids_handle in Hin'.
      destruct Hin' as [Hin'|Hev].
      * apply (Hfresh now); [|exact Hin'].
        destruct ev; simpl; auto.
      * subst ev. simpl in Hclk. inversion Hclk; subst. contradiction.
Qed.

Lemma map_id_on {A} (f : A -> A) (l : list A) :
  (forall x, In x l -> f x = x) -> map f l = l.
Proof.
  induction l as [|x l IH]; simpl; intros H; [reflexivity|].
  rewrite H by (left; reflexivity). rewrite IH; [reflexivity|].
  intros y Hy. apply H. right. exact Hy.
Qed.

Lemma filter_all {A} (f : A -> bool) (l : list A) :
  (forall x, In x l -> f x = true) -> filter f l = l.
Proof.
  induction l as [|x l IH]; simpl; intros H; [reflexivity|].
  rewrite H by (left; reflexivity). rewrite IH; [reflexivity|].
  intros y Hy. apply H. right. exact Hy.
Qed.

Lemma setTasks_same (st : State) : setTasks (tasks st) st = st.
Proof. destruct st; reflexivity. Qed.

Lemma id_absent_neqb (id : Z) (st : State) (t : Task.t) :
  ~ In id (ids st) -> In t (tasks st) -> (Task.id t =? id) = false.
Proof.
  intros Hno Hin. apply Z.eqb_neq. intros E. apply Hno.
  unfold ids. rewrite <- E. apply in_map. exact Hin.
Qed.

(** A handler given an identifier that no task has leaves the state as it
    is, but for the edit form that [updateTask] closes. *)
Lemma toggleTask_absent (id : Z) (st : State) :
  ~ In id (ids st) -> toggleTask id st = st.
Proof.
  intros Hno. unfold toggleTask. rewrite map_id_on.
  - apply setTasks_same.
  - intros t Ht. rewrite (id_absent_neqb id st t Hno Ht). reflexivity.
Qed.

Lemma deleteTask_absent (id : Z) (st : State) :
  ~ In id (ids st) -> deleteTask id st = st.
Proof.
  intros Hno. unfold deleteTask. rewrite filter_all.
  - apply setTasks_same.
  - intros t Ht. rewrite (id_absent_neqb id st t Hno Ht). reflexivity.
Qed.

Lemma tasks_updateTask_absent (id : Z) (st : State) :
  ~ In id (ids st) -> tasks (updateTask id st) = tasks st.
Proof.
  intros Hno. unfold updateTask.
  destruct (jsstring_eqb (trim (editTaskText st)) []); [reflexivity|].
  simpl. apply map_id_on.
  intros t Ht. rewrite (id_absent_neqb id st t Hno Ht). reflexivity.
Qed.

Lemma deleteTask_removes_id (id : Z) (st : State) :
  ~ In id (ids (deleteTask id st)).
Proof.
  rewrite ids_deleteTask. intros H. apply filter_In in H.
  destruct H as [_ H]. rewrite Z.eqb_refl in H. discriminate.
Qed.

(** After [deleteTask id], along any trace that adds no task at the clock
    reading [id], no task has the identifier [id]. *)
Lemma deleted_id_stays_absent (id : Z) (evs : list Event) (st : State) :
  ~ In id (clockReadings evs) ->
  ~ In id (ids (run evs (deleteTask id st))).
Proof.
  intros Hclk Hin. apply In_ids_run in Hin. destruct Hin as [H|H].
  - exact (deleteTask_removes_id id st H).
  - exact (Hclk H).
Qed.

(** ** Properties of the task list *)

(** C1. The identifiers of the tasks are meant to be pairwise distinct in
    every reachable state.  [addTask] takes the identifier from the clock, so
    two additions that read the same clock value give two tasks the same
    identifier: from the initial state, adding a task at clock reading 1000
    and another one at clock reading 1000 yields the identifiers
    [1000; 1000]. *)
Theorem addTask_same_clock_reading_repeats_id :
  ids (run [TypeNewTask (JS "a"); ClickAdd 1000;
            TypeNewTask (JS "b"); ClickAdd 1000] initialState) = [1000; 1000]
  /\ ~ NoDup (ids (run [TypeNewTask (JS "a"); ClickAdd 1000;
                        TypeNewTask (JS "b"); ClickAdd 1000] initialState)).
Proof.
  split; [reflexivity|].
  change (~ NoDup [1000; 1000]).
  intros H. inversion H as [|x l Hx Hl]; subst. apply Hx. left. reflexivity.
Qed.

(** C3. [addTask] with a text that is empty after trimming leaves the task
    list (and the whole state) unchanged; with any other text it appends
    exactly one task to the end of the list, the tasks before it unchanged
    and in order, whose [completed] is [false], whose [text] is the input as
    typed, untrimmed, whose [category] is the selected one, and whose
    [dueDate] and [dueTime] are [null] for an empty input and the input
    otherwise. *)
Theorem addTask_appends_or_rejects (now : Z) (st : State) :
  (trim (newTask st) = [] -> addTask now st = st) /\
  (trim (newTask st) <> [] ->
   exists task,
     tasks (addTask now st) = tasks st ++ [task] /\
     Task.id task = now /\
     Task.completed task = false /\
     Task.text task = newTask st /\
     Task.category task = selectedCategory st /\
     (dueDate st = [] -> Task.dueDate task = None) /\
     (dueDate st <> [] -> Task.dueDate task = Some (dueDate st)) /\
     (dueTime st = [] -> Task.dueTime task = None) /\
     (dueTime st <> [] -> Task.dueTime task = Some (dueTime st))).
Proof.
  split.
  - apply tasks_addTask_rejected.
  - intros H. eexists. split; [apply tasks_addTask_accepted; exact H|].
    simpl. repeat split; try reflexivity.
    + intros ->. reflexivity.
    + apply or_null_nonempty.
    + intros ->. reflexivity.
    + apply or_null_nonempty.
Qed.

Lemma addTask_appends_or_rejects_witness :
  addTask 1000 blankForm = blankForm /\
  exists task,
    tasks (addTask 1000 milkForm) = tasks milkForm ++ [task] /\
    Task.id task = 1000 /\
    Task.completed task = false /\
    Task.text task = newTask milkForm /\
    Task.category task = selectedCategory milkForm /\
    (dueDate milkForm = [] -> Task.dueDate task = None) /\
    (dueDate milkForm <> [] -> Task.dueDate task = Some (dueDate milkForm)) /\
    (dueTime milkForm = [] -> Task.dueTime task = None) /\
    (dueTime milkForm <> [] -> Task.dueTime task = Some (dueTime milkForm)).
Proof.
  split.
  - apply (proj1 (addTask_appends_or_rejects 1000 blankForm)). reflexivity.
  - apply (proj2 (addTask_appends_or_rejects 1000 milkForm)).
    vm_compute. discriminate.
Defined.

(** The task [updateTask] writes in place of [task]. *)
Lemma tasks_updateTask_accepted (id : Z) (st : State) :
  trim (editTaskText st) <> [] ->
  tasks (updateTask id st) =
  map (fun task =>
         if Task.id task =? id
         then Task.with_edit (editTaskText st) (or_null (editDueDate st))
                (or_null (editDueTime st)) task
         else task)
      (tasks st).
Proof.
  intros H. unfold updateTask.
  destruct (jsstring_eqb (trim (editTaskText st)) []) eqn:E.
  - apply jsstring_eqb_eq in E. contradiction.
  - reflexivity.
Qed.

(** C4. [updateTask] with a text that is empty after trimming leaves the
    state unchanged.  With any other text the list keeps its length and
    order: at every position, a task whose [id] matches gets the new [text],
    [dueDate] and [dueTime] (an empty input giving [null]) and keeps its
    [id], [category] and [completed], and a task whose [id] does not match is
    unchanged.  When no task has the identifier the list is unchanged. *)
Theorem updateTask_frame (id : Z) (st : State) :
  (trim (editTaskText st) = [] -> updateTask id st = st) /\
  (trim (editTaskText st) <> [] ->
   length (tasks (updateTask id st)) = length (tasks st) /\
   forall i task, nth_error (tasks st) i = Some task ->
     exists task', nth_error (tasks (updateTask id st)) i = Some task' /\
       (Task.id task <> id -> task' = task) /\
       (Task.id task = id ->
        Task.id task' = Task.id task /\
        Task.category task' = Task.category task /\
        Task.completed task' = Task.completed task /\
        Task.text task' = editTaskText st /\
        (editDueDate st = [] -> Task.dueDate task' = None) /\
        (editDueDate st <> [] -> Task.dueDate task' = Some (editDueDate st)) /\
        (editDueTime st = [] -> Task.dueTime task' = None) /\
        (editDueTime st <> [] ->
         Task.dueTime task' = Some (editDueTime st)))) /\
  (~ In id (ids st) -> tasks (updateTask id st) = tasks st).
Proof.
  split; [|split].
  - intros H. unfold updateTask. rewrite H. reflexivity.
  - intros H. rewrite (tasks_updateTask_accepted id st H).
    split; [apply length_map|].
    intros i task Hi. rewrite nth_error_map, Hi. simpl.
    eexists. split; [reflexivity|].
    destruct (Z.eqb_spec (Task.id task) id) as [E|E].
    + split; [intros; contradiction|]. intros _. simpl.
      repeat split.
      * intros ->. reflexivity.
      * apply or_null_nonempty.
      * intros ->. reflexivity.
      * apply or_null_nonempty.
    + split; [reflexivity|intros; contradiction].
  - apply tasks_updateTask_absent.
Qed.

Lemma updateTask_frame_witness :
  updateTask 2000 sampleBlankEdit = sampleBlankEdit /\
  (exists task',
     nth_error (tasks (updateTask 2000 sampleState)) 1 = Some task' /\
     Task.text task' = JS "Report v2" /\
     Task.completed task' = true /\
     Task.dueDate task' = Some (JS "2025-12-24") /\
     Task.dueTime task' = None) /\
  tasks (updateTask 7 sampleState) = tasks sampleState.
Proof.
  split; [|split].
  - apply (proj1 (updateTask_frame 2000 sampleBlankEdit)). reflexivity.
  - destruct (proj1 (proj2 (updateTask_frame 2000 sampleState)))
      as [_ H]; [vm_compute; discriminate|].
    destruct (H 1%nat (Task.mk 2000 (JS "Report") true Work
                         (Some (JS "2025-12-01")) (Some (JS "09:00")))
                eq_refl) as [task' [H1 [_ H2]]].
    destruct (H2 eq_refl) as [_ [_ [Hc [Ht [_ [Hd [Hh _]]]]]]].
    exists task'. split; [exact H1|].
    split; [exact Ht|]. split; [exact Hc|].
    split; [apply Hd; vm_compute; discriminate|apply Hh; reflexivity].
  - apply (proj2 (proj2 (updateTask_frame 7 sampleState))).
    vm_compute. intuition discriminate.
Defined.

(** C5. [toggleTask] keeps the length and the order of the list: at every
    position, a task whose [id] matches has its [completed] negated and its
    [id], [text], [category], [dueDate] and [dueTime] as before, and a task
    whose [id] does not match is unchanged.  When no task has the identifier
    the state is unchanged.  The other cells of the state are never
    touched. *)
Theorem toggleTask_frame (id : Z) (st : State) :
  length (tasks (toggleTask id st)) = length (tasks st) /\
  (forall i task, nth_error (tasks st) i = Some task ->
     exists task', nth_error (tasks (toggleTask id st)) i = Some task' /\
       (Task.id task <> id -> task' = task) /\
       (Task.id task = id ->
        Task.completed task' = negb (Task.completed task) /\
        Task.id task' = Task.id task /\
        Task.text task' = Task.text task /\
        Task.category task' = Task.category task /\
        Task.dueDate task' = Task.dueDate task /\
        Task.dueTime task' = Task.dueTime task)) /\
  (~ In id (ids st) -> toggleTask id st = st) /\
  toggleTask id st = setTasks (tasks (toggleTask id st)) st.
Proof.
  split; [|split; [|split]].
  - unfold toggleTask. simpl. apply length_map.
  - intros i task Hi. unfold toggleTask. simpl.
    rewrite nth_error_map, Hi. simpl.
    eexists. split; [reflexivity|].
    destruct (Z.eqb_spec (Task.id task) id) as [E|E].
    + split; [intros; contradiction|]. intros _. simpl. repeat split.
    + split; [reflexivity|intros; contradiction].
  - apply toggleTask_absent.
  - reflexivity.
Qed.

Lemma toggleTask_frame_witness :
  (exists task',
     nth_error (tasks (toggleTask 1000 sampleState)) 0 = Some task' /\
     Task.completed task' = true /\ Task.text task' = JS "Buy milk") /\
  toggleTask 7 sampleState = sampleState.
Proof.
  split.
  - destruct (proj1 (proj2 (toggleTask_frame 1000 sampleState)) 0%nat
                (Task.mk 1000 (JS "Buy milk") false Shopping None None)
                eq_refl) as [task' [H1 [_ H2]]].
    destruct (H2 eq_refl) as [Hc [_ [Ht _]]].
    exists task'. split; [exact H1|]. split; [exact Hc|exact Ht].
  - apply (proj1 (proj2 (proj2 (toggleTask_frame 7 sampleState)))).
    vm_compute. intuition discriminate.
Defined.

(** C6. [toggleTask] twice in succession with the same identifier gives back
    the state it started from: every task, the one with that identifier
    included, has its original [completed] flag. *)
Theorem toggleTask_involutive (id : Z) (st : State) :
  toggleTask id (toggleTask id st) = st.
Proof.
  unfold toggleTask. simpl. rewrite map_map.
  rewrite map_id_on.
  - destruct st; reflexivity.
  - intros t _. destruct (Z.eqb_spec (Task.id t) id) as [E|E]; simpl.
    + rewrite E, Z.eqb_refl, negb_involutive. destruct t; reflexivity.
    + apply Z.eqb_neq in E. rewrite E. reflexivity.
Qed.

Lemma Selects_filter {A} (P : A -> Prop) (f : A -> bool) (l : list A) :
  (forall x, f x = true <-> P x) -> Selects P l (filter f l).
Proof.
  intros Hf. induction l as [|x l IH]; simpl; [constructor|].
  destruct (f x) eqn:E.
  - apply Selects_keep; [apply Hf; exact E|exact IH].
  - apply Selects_drop; [|exact IH].
    intros HP. apply Hf in HP. congruence.
Qed.

Lemma Selects_functional {A} (P : A -> Prop) (l l1 l2 : list A) :
  Selects P l l1 -> Selects P l l2 -> l1 = l2.
Proof.
  intros H1. revert l2.
  induction H1 as [|x l l1 Hx H1 IH|x l l1 Hx H1 IH]; intros l2 H2;
    inversion H2; subst; try contradiction; auto.
  f_equal. apply IH. assumption.
Qed.

(** [deleteTask] removes the tasks with the identifier, and only them, the
    other tasks staying in order. *)
Lemma deleteTask_selects (id : Z) (st : State) :
  Selects (fun t => Task.id t <> id) (tasks st) (tasks (deleteTask id st)).
Proof.
  unfold deleteTask; simpl. apply Selects_filter.
  intros t. rewrite negb_true_iff. apply Z.eqb_neq.
Qed.

(** After [deleteTask id], the handlers given [id] change no task. *)
Lemma handlers_after_deleteTask (id : Z) (st : State) :
  toggleTask id (deleteTask id st) = deleteTask id st /\
  deleteTask id (deleteTask id st) = deleteTask id st /\
  tasks (updateTask id (deleteTask id st)) = tasks (deleteTask id st).
Proof.
  pose proof (deleteTask_removes_id id st) as H.
  split; [|split].
  - apply toggleTask_absent. exact H.
  - apply deleteTask_absent. exact H.
  - apply tasks_updateTask_absent. exact H.
Qed.

(** C7. After [deleteTask id] no task with that identifier is meant to
    reappear.  [addTask] takes the identifier from the clock: a task added at
    clock reading 1000 and deleted is followed by a task with the same
    identifier as soon as an addition reads 1000 again. *)
Theorem deleted_id_reappears_on_same_clock_reading :
  ~ In 1000 (ids (deleteTask 1000
                    (run [TypeNewTask (JS "a"); ClickAdd 1000] initialState)))
  /\ In 1000 (ids (run [TypeNewTask (JS "b"); ClickAdd 1000]
                     (deleteTask 1000
                        (run [TypeNewTask (JS "a"); ClickAdd 1000]
                           initialState)))).
Proof.
  split.
  - apply deleteTask_removes_id.
  - vm_compute. left. reflexivity.
Qed.

Lemma All_not_category (c : jsstring) : In c categories -> c <> All.
Proof.
  unfold categories. simpl.
  intros [H|[H|[H|[H|[H|[H|[]]]]]]]; subst c; vm_compute; discriminate.
Qed.

Lemma getFilteredTasks_All (st : State) :
  getFilteredTasks (setActiveFilter All st) = tasks st.
Proof. reflexivity. Qed.

Lemma getFilteredTasks_category (c : jsstring) (st : State) :
  c <> All ->
  getFilteredTasks (setActiveFilter c st) =
  filter (fun t => jsstring_eqb (Task.category t) c) (tasks st).
Proof.
  intros H. unfold getFilteredTasks. simpl.
  apply jsstring_eqb_neq in H. rewrite H. reflexivity.
Qed.

(** C8. With the filter [All], [getFilteredTasks] is the task list itself.
    With a category as the filter it holds exactly the tasks of that
    category, in the order they have in the task list; a task is in it if and
    only if it is in the task list with that category.  The function reads
    the state and returns a list: the task list of the state is what it
    was. *)
Theorem getFilteredTasks_selects (st : State) :
  getFilteredTasks (setActiveFilter All st) = tasks st /\
  forall c, In c categories ->
    Selects (fun t => Task.category t = c) (tasks st)
      (getFilteredTasks (setActiveFilter c st)) /\
    (forall t, In t (getFilteredTasks (setActiveFilter c st)) <->
               In t (tasks st) /\ Task.category t = c) /\
    tasks (setActiveFilter c st) = tasks st.
Proof.
  split; [apply getFilteredTasks_All|].
  intros c Hc. apply All_not_category in Hc.
  rewrite (getFilteredTasks_category c st Hc).
  split; [|split].
  - apply Selects_filter. intros t. apply jsstring_eqb_eq.
  - intros t. rewrite filter_In, jsstring_eqb_eq. tauto.
  - reflexivity.
Qed.

Lemma getFilteredTasks_selects_witness :
  Selects (fun t => Task.category t = Work) (tasks sampleState)
    (getFilteredTasks (setActiveFilter Work sampleState)).
Proof.
  apply (proj2 (getFilteredTasks_selects sampleState) Work).
  right. left. reflexivity.
Defined.

Lemma length_filter_category (c : jsstring) (l : list Task.t) :
  length (filter (fun t => jsstring_eqb (Task.category t) c) l) =
  countByCategory c l.
Proof.
  unfold countByCategory. induction l as [|t l IH]; simpl; [reflexivity|].
  destruct (jsstring_dec (Task.category t) c) as [E|E].
  - apply jsstring_eqb_eq in E. rewrite E. simpl. rewrite IH. reflexivity.
  - apply jsstring_eqb_neq in E. rewrite E. exact IH.
Qed.

(** C10. For a category [c], the number of tasks [getFilteredTasks] shows
    under the filter [c] is the number in the badge of the button [c], and
    both are the number of tasks whose category is [c]. *)
Theorem badgeCount_matches_filter (c : jsstring) (st : State) :
  In c categories ->
  length (getFilteredTasks (setActiveFilter c st)) = badgeCount c st /\
  badgeCount c st = countByCategory c (tasks st).
Proof.
  intros Hc. apply All_not_category in Hc.
  rewrite (getFilteredTasks_category c st Hc).
  unfold badgeCount. apply jsstring_eqb_neq in Hc. rewrite Hc. simpl.
  split; [reflexivity|apply length_filter_category].
Qed.

Lemma badgeCount_matches_filter_witness :
  length (getFilteredTasks (setActiveFilter Work sampleState)) =
  badgeCount Work sampleState /\
  badgeCount Work sampleState = countByCategory Work (tasks sampleState).
Proof.
  apply (badgeCount_matches_filter Work sampleState).
  right. left. reflexivity.
Defined.

(** The badge of the button [All] counts what the filter [All] shows. *)
Lemma badgeCount_All (st : State) :
  length (getFilteredTasks (setActiveFilter All st)) = badgeCount All st.
Proof. reflexivity. Qed.

(** ** Loading *)

Lemma loadEffect_nothing_stored (storage : Storage) :
  items storage tasksKey = None ->
  loadEffect (mountEnv storage) = Normal tt (mountEnv storage).
Proof.
  intros H. unfold loadEffect, bind, getItem. simpl. rewrite H. reflexivity.
Qed.

Lemma loadEffect_empty_string (storage : Storage) :
  items storage tasksKey = Some [] ->
  loadEffect (mountEnv storage) = Normal tt (mountEnv storage).
Proof.
  intros H. unfold loadEffect, bind, getItem. simpl. rewrite H. reflexivity.
Qed.

Lemma loadEffect_syntax_error (storage : Storage)
    (text : jsstring) (e : Error) :
  items storage tasksKey = Some text -> text <> [] -> JSON_parse text = inl e ->
  loadEffect (mountEnv storage) =
  Normal tt (mkEnv storage [ConsoleError loadErrorMessage e] true (VArr [])).
Proof.
  intros H Hne Hp. unfold loadEffect, bind, getItem. simpl. rewrite H.
  destruct text as [|c s]; [congruence|].
  unfold tryCatch, bind, lift. rewrite Hp. reflexivity.
Qed.

Lemma loadEffect_parsed (storage : Storage)
    (text : jsstring) (v : value) :
  items storage tasksKey = Some text -> text <> [] -> JSON_parse text = inr v ->
  loadEffect (mountEnv storage) = Normal tt (mkEnv storage [] true v).
Proof.
  intros H Hne Hp. unfold loadEffect, bind, getItem. simpl. rewrite H.
  destruct text as [|c s]; [congruence|].
  unfold tryCatch, bind, lift. rewrite Hp. reflexivity.
Qed.

(** What the load hook does, for every stored content.  It never throws and
    never writes to the storage.  With nothing stored under the key, or the
    empty string, the task list stays empty and nothing is reported.  With a
    stored text that is not JSON, the [SyntaxError] is caught and reported on
    the console and the task list stays empty.  With a stored text that is
    JSON, the value it denotes becomes the task list, whatever its shape, and
    nothing is reported. *)
Theorem loadEffect_soft_failure (storage : Storage) :
  exists env,
    loadEffect (mountEnv storage) = Normal tt env /\
    localStorage env = storage /\
    isFirstRender env = true /\
    match items storage tasksKey with
    | None | Some [] => tasksCell env = VArr [] /\ console env = []
    | Some (c :: s) =>
        match JSON_parse (c :: s) with
        | inl e =>
            tasksCell env = VArr [] /\
            console env = [ConsoleError loadErrorMessage e]
        | inr v => tasksCell env = v /\ console env = []
        end
    end.
Proof.
  destruct (items storage tasksKey) as [[|c s]|] eqn:H.
  - exists (mountEnv storage).
    rewrite (loadEffect_empty_string storage H). repeat split.
  - destruct (JSON_parse (c :: s)) as [e|v] eqn:Hp.
    + eexists. rewrite (loadEffect_syntax_error storage (c :: s) e H);
        [|discriminate|exact Hp]. repeat split.
    + eexists. rewrite (loadEffect_parsed storage (c :: s) v H);
        [|discriminate|exact Hp]. repeat split.
  - exists (mountEnv storage).
    rewrite (loadEffect_nothing_stored storage H). repeat split.
Qed.

(** A stored text that is not JSON: the scenario of corrupt content. *)
Lemma loadEffect_corrupt_content :
  loadEffect (mountEnv (storageWith (JS "[{oops"))) =
  Normal tt (mkEnv (storageWith (JS "[{oops"))
               [ConsoleError loadErrorMessage SyntaxError] true (VArr [])).
Proof. reflexivity. Qed.

(** C2, as the claim states it, fails on the stored text [42]: the text is
    not in the expected format, and yet the load hook reports nothing and
    makes the number 42 the task list. *)
Lemma loadEffect_accepts_any_json :
  ~ expectedFormat (JS "42") /\
  loadEffect (mountEnv (storageWith (JS "42"))) =
  Normal tt (mkEnv (storageWith (JS "42")) [] true (VNum (Number_of_Z 42))) /\
  VNum (Number_of_Z 42) <> VArr [].
Proof.
  split; [|split].
  - intros [l H]. vm_compute in H. destruct l; discriminate.
  - reflexivity.
  - discriminate.
Qed.

(** ** Strings survive quoting *)

Lemma hexValue_hexChar (d : N) : (d < 16)%N -> hexValue (hexChar d) = Some d.
Proof.
  intros H. unfold hexChar, hexValue.
  destruct (N.ltb_spec d 10) as [L|L].
  - replace (N.leb 48 (48 + d) && N.leb (48 + d) 57) with true.
    + f_equal. lia.
    + symmetry. apply andb_true_iff. split; apply N.leb_le; lia.
  - replace (N.leb 48 (87 + d) && N.leb (87 + d) 57) with false.
    + replace (N.leb 97 (87 + d) && N.leb (87 + d) 102) with true.
      * f_equal. lia.
      * symmetry. apply andb_true_iff. split; apply N.leb_le; lia.
    + symmetry. apply andb_false_iff. right. apply N.leb_gt. lia.
Qed.

Lemma hex4_digits (c : N) :
  (c < 65536)%N ->
  hex4 (hexChar (c / 4096 mod 16)) (hexChar (c / 256 mod 16))
       (hexChar (c / 16 mod 16)) (hexChar (c mod 16)) = Some c.
Proof.
  intros H. unfold hex4.
  rewrite !hexValue_hexChar by (apply N.mod_lt; discriminate).
  f_equal.
  zify. Z.to_euclidean_division_equations. lia.
Qed.

Lemma parseChars_unicodeEscape (c : N) (t : jsstring) :
  (c < 65536)%N ->
  parseChars (unicodeEscape c ++ t) = consChar c (parseChars t).
Proof.
  intros H. unfold unicodeEscape. cbn [app parseChars].
  change (N.eqb 92 34) with false. change (N.eqb 92 92) with true.
  change (N.eqb 117 117) with true. cbv iota.
  rewrite (hex4_digits c H). reflexivity.
Qed.

Lemma parseChars_literal (c : N) (t : jsstring) :
  c <> 34%N -> c <> 92%N -> (32 <= c)%N ->
  parseChars (c :: t) = consChar c (parseChars t).
Proof.
  intros H1 H2 H3. cbn [parseChars].
  apply N.eqb_neq in H1, H2. rewrite H1, H2.
  destruct (N.ltb_spec c 32); [lia|reflexivity].
Qed.

Lemma parseChars_quoteUnit (c : N) (t : jsstring) :
  parseChars (quoteUnit c ++ t) = consChar c (parseChars t).
Proof.
  unfold quoteUnit.
  destruct (N.eqb_spec c 8) as [->|N8]; [reflexivity|].
  destruct (N.eqb_spec c 9) as [->|N9]; [reflexivity|].
  destruct (N.eqb_spec c 10) as [->|N10]; [reflexivity|].
  destruct (N.eqb_spec c 12) as [->|N12]; [reflexivity|].
  destruct (N.eqb_spec c 13) as [->|N13]; [reflexivity|].
  destruct (N.eqb_spec c 34) as [->|N34]; [reflexivity|].
  destruct (N.eqb_spec c 92) as [->|N92]; [reflexivity|].
  destruct ((c <? 32)%N || isLeadingSurrogate c || isTrailingSurrogate c)
    eqn:E.
  - apply parseChars_unicodeEscape.
    unfold isLeadingSurrogate, isTrailingSurrogate in E.
    rewrite !orb_true_iff, !andb_true_iff, N.ltb_lt, !N.leb_le in E. lia.
  - apply parseChars_literal; [assumption|assumption|].
    rewrite !orb_false_iff, N.ltb_ge in E. tauto.
Qed.

Lemma quoteUnits_cons (c d : code_unit) (s : jsstring) :
  quoteUnits (c :: d :: s) =
  if isLeadingSurrogate c && isTrailingSurrogate d
  then c :: d :: quoteUnits s
  else quoteUnit c ++ quoteUnits (d :: s).
Proof. reflexivity. Qed.

Lemma parseChars_quoteUnits_bounded (n : nat) :
  forall (s rest : jsstring), (length s <= n)%nat ->
  parseChars (quoteUnits s ++ 34%N :: rest) = Some (s, rest).
Proof.
  induction n as [|n IH]; intros s rest Hn.
  - destruct s; [reflexivity|simpl in Hn; lia].
  - destruct s as [|c [|d s]].
    + reflexivity.
    + cbn [quoteUnits]. rewrite parseChars_quoteUnit. reflexivity.
    + rewrite quoteUnits_cons.
      destruct (isLeadingSurrogate c && isTrailingSurrogate d) eqn:E.
      * apply andb_true_iff in E. destruct E as [Ec Ed].
        unfold isLeadingSurrogate in Ec. unfold isTrailingSurrogate in Ed.
        rewrite andb_true_iff, !N.leb_le in Ec, Ed.
        cbn [app].
        rewrite parseChars_literal by lia.
        rewrite parseChars_literal by lia.
        rewrite (IH s rest) by (simpl in Hn |- *; lia). reflexivity.
      * rewrite <- app_assoc, parseChars_quoteUnit.
        rewrite (IH (d :: s) rest) by (simpl in Hn |- *; lia). reflexivity.
Qed.

Lemma parseChars_quoteUnits (s rest : jsstring) :
  parseChars (quoteUnits s ++ 34%N :: rest) = Some (s, rest).
Proof. apply (parseChars_quoteUnits_bounded (length s)). lia. Qed.

(** A quoted string read back: the string, and what follows the closing
    quote. *)
Lemma parseStringValue_quote (s rest : jsstring) :
  parseStringValue (tl (QuoteJSONString s) ++ rest) = Some (VStr s, rest).
Proof.
  unfold parseStringValue, QuoteJSONString. cbn [tl].
  rewrite <- app_assoc. cbn [app].
  rewrite parseChars_quoteUnits. reflexivity.
Qed.

(** ** Numbers survive [Number::toString] *)



Lemma digits_uint_digits (u : Decimal.uint) : digits_uint (uint_digits u) = u.
Proof. induction u; simpl; congruence. Qed.

Lemma undecimal_decimal (n : N) : undecimal (decimal n) = n.
Proof.
  unfold undecimal, decimal. rewrite digits_uint_digits.
  apply DecimalN.Unsigned.of_to.
Qed.

Lemma uint_digits_lt10 (u : Decimal.uint) :
  Forall (fun d => d < 10)%N (uint_digits u).
Proof. induction u; simpl; constructor; (lia || assumption). Qed.

Lemma decimal_lt10 (n : N) : Forall (fun d => d < 10)%N (decimal n).
Proof. apply uint_digits_lt10. Qed.

Lemma decimal_nonempty (n : N) : decimal n <> [].
Proof.
  unfold decimal. intros H.
  assert (E : N.to_uint n = Decimal.Nil).
  { destruct (N.to_uint n); try discriminate. reflexivity. }
  pose proof (DecimalN.Unsigned.of_to n) as Hn. rewrite E in Hn.
  assert (N.to_uint 0 = Decimal.Nil) by (rewrite Hn at 1; exact E).
  discriminate.
Qed.

Lemma isDigitChar_digitChar (d : N) :
  (d < 10)%N -> isDigitChar (digitChar d) = true.
Proof.
  intros H. unfold isDigitChar, digitChar.
  apply andb_true_iff. split; apply N.leb_le; lia.
Qed.

Lemma digitValue_digitChar (d : N) : digitValue (digitChar d) = d.
Proof. unfold digitValue, digitChar. lia. Qed.


Lemma spanDigits_digits (ds : list N) (rest : jsstring) :
  Forall (fun d => d < 10)%N ds -> noDigitAhead rest ->
  spanDigits (map digitChar ds ++ rest) = (ds, rest).
Proof.
  intros Hds Hrest. induction Hds as [|d ds Hd Hds IH]; simpl.
  - destruct rest as [|c rest]; [reflexivity|].
    simpl in Hrest |- *. rewrite Hrest. reflexivity.
  - rewrite (isDigitChar_digitChar d Hd), IH, digitValue_digitChar.
    reflexivity.
Qed.

Lemma delimited_noDigitAhead (rest : jsstring) :
  delimited rest -> noDigitAhead rest.
Proof. destruct rest; simpl; tauto. Qed.

(** *** The digits of a literal *)

Lemma dropZeros_zeros (a : nat) (ds : list N) :
  dropZeros (zeros a ++ ds) = dropZeros ds.
Proof. induction a; simpl; auto. Qed.

Lemma countZeros_zeros (a : nat) (ds : list N) :
  countZeros (zeros a ++ ds) = (a + countZeros ds)%nat.
Proof. induction a; simpl; auto. Qed.

Lemma dropZeros_nonzero (d : N) (ds : list N) :
  d <> 0%N -> dropZeros (d :: ds) = d :: ds.
Proof. intros H. destruct d; [congruence|reflexivity]. Qed.

Lemma countZeros_nonzero (d : N) (ds : list N) :
  d <> 0%N -> countZeros (d :: ds) = O.
Proof. intros H. destruct d; [congruence|reflexivity]. Qed.

Lemma rev_zeros (b : nat) : rev (zeros b) = zeros b.
Proof.
  unfold zeros. induction b; simpl; [reflexivity|].
  rewrite IHb. clear IHb. induction b; simpl; [reflexivity|].
  f_equal. exact IHb.
Qed.

Lemma last_rev_head (ds : list N) (x : N) :
  ds <> [] -> exists t, rev ds = last ds x :: t.
Proof.
  intros H. destruct (exists_last H) as [l [a E]]. subst ds.
  rewrite rev_app_distr, last_last. simpl. eexists. reflexivity.
Qed.

Lemma dropTrailingZeros_padded (ds : list N) (b : nat) :
  ds <> [] -> last ds 1%N <> 0%N ->
  dropTrailingZeros (ds ++ zeros b) = ds.
Proof.
  intros Hne Hlast. unfold dropTrailingZeros.
  rewrite rev_app_distr, rev_zeros, dropZeros_zeros.
  destruct (last_rev_head ds 1%N Hne) as [t E]. rewrite E.
  rewrite dropZeros_nonzero by exact Hlast.
  rewrite <- E. apply rev_involutive.
Qed.

(** A literal whose digits are those of [x] between [a] leading and [b]
    trailing zeros denotes [x], the point placed by the length of the integer
    part and by the exponent. *)
Lemma mkDecimal_padded (neg : bool) (int frac : list N) (e : Z)
    (a b : nat) (d : N) (ds : list N) :
  int ++ frac = zeros a ++ (d :: ds) ++ zeros b ->
  d <> 0%N -> last (d :: ds) 1%N <> 0%N ->
  mkDecimal neg int frac e =
  mkNumber neg (d :: ds) (Z.of_nat (length int) + e - Z.of_nat a).
Proof.
  intros E Hd Hlast. unfold mkDecimal. rewrite E.
  rewrite dropZeros_zeros.
  change ((d :: ds) ++ zeros b) with (d :: (ds ++ zeros b)).
  rewrite dropZeros_nonzero by exact Hd.
  change (d :: (ds ++ zeros b)) with ((d :: ds) ++ zeros b).
  rewrite dropTrailingZeros_padded by (try discriminate; exact Hlast).
  rewrite countZeros_zeros.
  change ((d :: ds) ++ zeros b) with (d :: (ds ++ zeros b)).
  rewrite countZeros_nonzero by exact Hd.
  rewrite Nat.add_0_r. reflexivity.
Qed.

(** *** Fractions and exponents *)

Lemma parseFraction_none (rest : jsstring) :
  delimited rest -> parseFraction rest = Some ([], rest).
Proof.
  destruct rest as [|c rest]; simpl; [reflexivity|].
  intros [_ [H _]]. apply N.eqb_neq in H. rewrite H. reflexivity.
Qed.

Lemma parseExponent_none (rest : jsstring) :
  delimited rest -> parseExponent rest = Some (0, rest).
Proof.
  destruct rest as [|c rest]; simpl; [reflexivity|].
  intros [_ [_ [H1 H2]]]. apply N.eqb_neq in H1, H2. rewrite H1, H2.
  reflexivity.
Qed.

Lemma parseFraction_digits (f : N) (fs : list N) (rest : jsstring) :
  Forall (fun d => d < 10)%N (f :: fs) -> noDigitAhead rest ->
  parseFraction (46%N :: map digitChar (f :: fs) ++ rest) =
  Some (f :: fs, rest).
Proof.
  intros Hf Hrest. unfold parseFraction.
  change (N.eqb 46 46) with true. cbv iota.
  rewrite (spanDigits_digits (f :: fs) rest Hf Hrest). reflexivity.
Qed.

Lemma parseExponent_digits (e : Z) (rest : jsstring) :
  noDigitAhead rest ->
  parseExponent
    (JS "e" ++ (if e <? 0 then JS "-" else JS "+") ++
     map digitChar (decimal (Z.abs_N e)) ++ rest) = Some (e, rest).
Proof.
  intros Hrest.
  pose proof (decimal_nonempty (Z.abs_N e)) as Hne.
  pose proof (spanDigits_digits (decimal (Z.abs_N e)) rest
                (decimal_lt10 _) Hrest) as Hspan.
  destruct (Z.ltb_spec e 0) as [L|L].
  - change (JS "e" ++ JS "-" ++ map digitChar (decimal (Z.abs_N e)) ++ rest)
      with (101%N :: 45%N :: map digitChar (decimal (Z.abs_N e)) ++ rest).
    unfold parseExponent.
    change (N.eqb 101 101 || N.eqb 101 69) with true.
    change (N.eqb 45 43) with false. change (N.eqb 45 45) with true.
    cbv iota. rewrite Hspan.
    destruct (decimal (Z.abs_N e)) eqn:E; [congruence|].
    rewrite <- E, undecimal_decimal. f_equal. f_equal. lia.
  - change (JS "e" ++ JS "+" ++ map digitChar (decimal (Z.abs_N e)) ++ rest)
      with (101%N :: 43%N :: map digitChar (decimal (Z.abs_N e)) ++ rest).
    unfold parseExponent.
    change (N.eqb 101 101 || N.eqb 101 69) with true.
    change (N.eqb 43 43) with true.
    cbv iota. rewrite Hspan.
    destruct (decimal (Z.abs_N e)) eqn:E; [congruence|].
    rewrite <- E, undecimal_decimal. f_equal. f_equal. lia.
Qed.

Lemma digitChar_48 (d : N) : N.eqb (digitChar d) 48 = false <-> d <> 0%N.
Proof. unfold digitChar. rewrite N.eqb_neq. lia. Qed.

Lemma Forall_zeros (n : nat) : Forall (fun d => d < 10)%N (zeros n).
Proof. unfold zeros. induction n; simpl; constructor; (lia || assumption). Qed.

Lemma length_zeros (n : nat) : length (zeros n) = n.
Proof. apply repeat_length. Qed.

(** *** The four layouts of [Number::toString] read back *)

Section Layouts.

Variables (neg : bool) (d : N) (ds : list N) (n : Z) (rest : jsstring).
Hypothesis Hlt : Forall (fun d => d < 10)%N (d :: ds).
Hypothesis Hd : d <> 0%N.
Hypothesis Hlast : last (d :: ds) 1%N <> 0%N.
Hypothesis Hrest : delimited rest.

Let k := Z.of_nat (length (d :: ds)).

Lemma parseUnsigned_head (int : list N) (s2 t : jsstring) :
  spanDigits (digitChar d :: t) = (int, s2) ->
  parseUnsigned neg (digitChar d :: t) =
  match parseFraction s2 with
  | Some (frac, s3) =>
      match parseExponent s3 with
      | Some (e, s4) => Some (mkDecimal neg int frac e, s4)
      | None => None
      end
  | None => None
  end.
Proof.
  intros E. unfold parseUnsigned.
  rewrite isDigitChar_digitChar by (inversion Hlt; assumption).
  rewrite (proj2 (digitChar_48 d) Hd). rewrite E. reflexivity.
Qed.

Lemma parseUnsigned_integer :
  k <= n ->
  parseUnsigned neg
    (map digitChar ((d :: ds) ++ zeros (Z.to_nat (n - k))) ++ rest) =
  Some (mkNumber neg (d :: ds) n, rest).
Proof.
  intros Hk.
  assert (Hall : Forall (fun d => d < 10)%N
                   ((d :: ds) ++ zeros (Z.to_nat (n - k)))).
  { apply Forall_app. split; [exact Hlt|apply Forall_zeros]. }
  pose proof (spanDigits_digits _ rest Hall
                (delimited_noDigitAhead rest Hrest)) as Hspan.
  change (map digitChar ((d :: ds) ++ zeros (Z.to_nat (n - k))) ++ rest)
    with (digitChar d ::
          map digitChar (ds ++ zeros (Z.to_nat (n - k))) ++ rest)
    in Hspan |- *.
  rewrite (parseUnsigned_head _ _ _ Hspan).
  rewrite (parseFraction_none rest Hrest), (parseExponent_none rest Hrest).
  rewrite (mkDecimal_padded neg _ [] 0 0 (Z.to_nat (n - k)) d ds);
    [|rewrite app_nil_r; reflexivity|exact Hd|exact Hlast].
  do 3 f_equal. rewrite length_app, length_zeros.
  unfold k in *. lia.
Qed.

Lemma parseUnsigned_fraction :
  0 < n < k ->
  parseUnsigned neg
    (map digitChar (firstn (Z.to_nat n) (d :: ds)) ++ JS "." ++
     map digitChar (skipn (Z.to_nat n) (d :: ds)) ++ rest) =
  Some (mkNumber neg (d :: ds) n, rest).
Proof.
  intros Hn.
  destruct (Z.to_nat n) as [|m] eqn:Em; [lia|].
  assert (Hm : (m < length ds)%nat) by (unfold k in Hn; simpl in Hn; lia).
  pose proof (firstn_skipn (S m) (d :: ds)) as Hsplit.
  assert (Hint : Forall (fun d => d < 10)%N (firstn (S m) (d :: ds))).
  { rewrite <- Hsplit in Hlt. apply Forall_app in Hlt. tauto. }
  assert (Hfrac : Forall (fun d => d < 10)%N (skipn (S m) (d :: ds))).
  { rewrite <- Hsplit in Hlt. apply Forall_app in Hlt. tauto. }
  assert (Hfne : skipn (S m) (d :: ds) <> []).
  { intros E. apply (f_equal (@length N)) in E.
    rewrite length_skipn in E. simpl in E. lia. }
  assert (Hspan :
    spanDigits (map digitChar (firstn (S m) (d :: ds)) ++ JS "." ++
                map digitChar (skipn (S m) (d :: ds)) ++ rest) =
    (firstn (S m) (d :: ds),
     JS "." ++ map digitChar (skipn (S m) (d :: ds)) ++ rest)).
  { apply spanDigits_digits; [exact Hint|reflexivity]. }
  change (firstn (S m) (d :: ds)) with (d :: firstn m ds) in Hspan |- * at 1.
  cbn [map app] in Hspan |- *.
  rewrite (parseUnsigned_head _ _ _ Hspan).
  destruct (skipn (S m) (d :: ds)) as [|f fs] eqn:Ef; [congruence|].
  change (JS "." ++ map digitChar (f :: fs) ++ rest)
    with (46%N :: map digitChar (f :: fs) ++ rest).
  rewrite (parseFraction_digits f fs rest Hfrac
             (delimited_noDigitAhead rest Hrest)).
  rewrite (parseExponent_none rest Hrest).
  rewrite (mkDecimal_padded neg _ _ 0 0 0 d ds);
    [|rewrite app_nil_r; exact Hsplit|exact Hd|exact Hlast].
  do 3 f_equal. simpl length. rewrite length_firstn. lia.
Qed.

Lemma parseUnsigned_small :
  n <= 0 ->
  parseUnsigned neg
    (JS "0." ++ map digitChar (zeros (Z.to_nat (- n)) ++ d :: ds) ++ rest) =
  Some (mkNumber neg (d :: ds) n, rest).
Proof.
  intros Hn.
  assert (Hall : Forall (fun d => d < 10)%N
                   (zeros (Z.to_nat (- n)) ++ d :: ds)).
  { apply Forall_app. split; [apply Forall_zeros|exact Hlt]. }
  change (JS "0." ++ map digitChar (zeros (Z.to_nat (- n)) ++ d :: ds)
          ++ rest)
    with (48%N :: 46%N ::
          map digitChar (zeros (Z.to_nat (- n)) ++ d :: ds) ++ rest).
  unfold parseUnsigned.
  change (isDigitChar 48%N) with true. change (N.eqb 48 48) with true.
  cbv iota.
  destruct (zeros (Z.to_nat (- n)) ++ d :: ds) as [|f fs] eqn:Ef.
  { destruct (zeros (Z.to_nat (- n))); discriminate. }
  rewrite (parseFraction_digits f fs rest Hall
             (delimited_noDigitAhead rest Hrest)).
  rewrite (parseExponent_none rest Hrest).
  rewrite (mkDecimal_padded neg _ _ 0 (S (Z.to_nat (- n))) 0 d ds);
    [|rewrite <- Ef, app_nil_r; reflexivity|exact Hd|exact Hlast].
  do 3 f_equal. simpl length. lia.
Qed.

Lemma parseUnsigned_exponent :
  parseUnsigned neg
    (digitChar d ::
     (match ds with [] => [] | _ :: _ => JS "." ++ map digitChar ds end) ++
     JS "e" ++ (if n - 1 <? 0 then JS "-" else JS "+") ++
     map digitChar (decimal (Z.abs_N (n - 1))) ++ rest) =
  Some (mkNumber neg (d :: ds) n, rest).
Proof.
  pose proof (parseExponent_digits (n - 1) rest
                (delimited_noDigitAhead rest Hrest)) as Hexp.
  set (tail := JS "e" ++ (if n - 1 <? 0 then JS "-" else JS "+") ++
               map digitChar (decimal (Z.abs_N (n - 1))) ++ rest)
    in Hexp |- *.
  assert (Htail : exists t, tail = 101%N :: t).
  { unfold tail. eexists. reflexivity. }
  destruct Htail as [t Htail].
  pose proof parseUnsigned_head as Hhead.
  destruct ds as [|f fs].
  - cbn [app].
    rewrite (Hhead [d] tail tail).
    + rewrite Htail at 1. cbn [parseFraction].
      change (N.eqb 101 46) with false. cbv iota.
      rewrite <- Htail, Hexp.
      rewrite (mkDecimal_padded neg _ _ (n - 1) 0 0 d []);
        [|reflexivity|exact Hd|exact Hlast].
      do 3 f_equal. simpl length. lia.
    + rewrite Htail. cbn [spanDigits].
      rewrite isDigitChar_digitChar by (inversion Hlt; assumption).
      change (isDigitChar 101%N) with false. cbv iota.
      rewrite digitValue_digitChar. reflexivity.
  - change ((JS "." ++ map digitChar (f :: fs)) ++ tail)
      with (46%N :: map digitChar (f :: fs) ++ tail).
    rewrite (Hhead [d] (46%N :: map digitChar (f :: fs) ++ tail)).
    + rewrite parseFraction_digits;
        [|inversion Hlt; assumption|rewrite Htail; reflexivity].
      rewrite Hexp.
      rewrite (mkDecimal_padded neg _ _ (n - 1) 0 0 d (f :: fs));
        [|rewrite app_nil_r; reflexivity|exact Hd|exact Hlast].
      do 3 f_equal. simpl length. lia.
    + cbn [spanDigits].
      rewrite isDigitChar_digitChar by (inversion Hlt; assumption).
      change (isDigitChar 46%N) with false. cbv iota.
      rewrite digitValue_digitChar. reflexivity.
Qed.

Lemma parseUnsigned_formatDigits :
  parseUnsigned neg (formatDigits d ds n ++ rest) =
  Some (mkNumber neg (d :: ds) n, rest).
Proof.
  unfold formatDigits. fold k.
  destruct ((k <=? n) && (n <=? 21)) eqn:E1.
  { apply andb_true_iff in E1. destruct E1 as [E1 _].
    apply Z.leb_le in E1. apply parseUnsigned_integer. exact E1. }
  destruct ((0 <? n) && (n <=? 21)) eqn:E2.
  { apply andb_true_iff in E2. destruct E2 as [E2 E3].
    rewrite E3, andb_true_r in E1. apply Z.leb_gt in E1.
    apply Z.ltb_lt in E2.
    rewrite <- !app_assoc. apply parseUnsigned_fraction. lia. }
  destruct ((-6 <? n) && (n <=? 0)) eqn:E3.
  { apply andb_true_iff in E3. destruct E3 as [_ E3].
    apply Z.leb_le in E3.
    rewrite <- !app_assoc. apply parseUnsigned_small. exact E3. }
  cbn [app]. rewrite <- !app_assoc. apply parseUnsigned_exponent.
Qed.

Lemma formatDigits_head :
  exists c r, formatDigits d ds n = c :: r /\ isDigitChar c = true.
Proof.
  assert (Hc : isDigitChar (digitChar d) = true).
  { apply isDigitChar_digitChar. inversion Hlt; assumption. }
  unfold formatDigits.
  destruct ((Z.of_nat (length (d :: ds)) <=? n) && (n <=? 21)).
  { eexists; eexists. split; [reflexivity|exact Hc]. }
  destruct ((0 <? n) && (n <=? 21)) eqn:E2.
  { apply andb_true_iff in E2. destruct E2 as [E2 _].
    apply Z.ltb_lt in E2.
    destruct (Z.to_nat n) eqn:En; [lia|].
    eexists; eexists. split; [reflexivity|exact Hc]. }
  destruct ((-6 <? n) && (n <=? 0)).
  { eexists; eexists. split; reflexivity. }
  eexists; eexists. split; [reflexivity|exact Hc].
Qed.

End Layouts.

(** A number that [JSON.stringify] wrote reads back as itself. *)
Lemma parseNumber_NumberToString (x : Number) (rest : jsstring) :
  canonical x -> delimited rest ->
  parseNumber (NumberToString x ++ rest) = Some (x, rest).
Proof.
  intros [Hlt Hx] Hrest. destruct x as [neg ds n]. simpl in *.
  unfold NumberToString. simpl.
  destruct ds as [|d ds].
  - destruct Hx as [-> ->].
    change (JS "0" ++ rest) with (48%N :: rest).
    unfold parseNumber. change (N.eqb 48 45) with false.
    unfold parseUnsigned.
    change (isDigitChar 48%N) with true. change (N.eqb 48 48) with true.
    cbv iota.
    rewrite (parseFraction_none rest Hrest), (parseExponent_none rest Hrest).
    reflexivity.
  - destruct Hx as [Hd Hlast]. destruct neg.
    + change (JS "-" ++ formatDigits d ds n) with (45%N :: formatDigits d ds n).
      cbn [app]. unfold parseNumber. change (N.eqb 45 45) with true.
      apply parseUnsigned_formatDigits; assumption.
    + cbn [app].
      destruct (formatDigits_head d ds n Hlt Hd Hlast) as [c [r [E Hc]]].
      pose proof (parseUnsigned_formatDigits false d ds n rest
                    Hlt Hd Hlast Hrest) as H.
      rewrite E in H. rewrite E. cbn [app] in H |- *.
      unfold parseNumber.
      replace (N.eqb c 45) with false; [exact H|].
      symmetry. apply N.eqb_neq. intros ->. discriminate.
Qed.



(** ** Values survive [JSON.stringify] *)

Lemma parseValue_unfold (f : nat) (c : code_unit) (r : jsstring) :
  isJSONWhiteSpace c = false ->
  parseValue (S f) (c :: r) =
  if N.eqb c 34 then parseStringValue r
  else if N.eqb c 91 then parseArray (parseElements f) r
  else if N.eqb c 123 then parseObject (parseMembers f) r
  else if N.eqb c 110 then parseLiteral (JS "ull") VNull r
  else if N.eqb c 116 then parseLiteral (JS "rue") (VBool true) r
  else if N.eqb c 102 then parseLiteral (JS "alse") (VBool false) r
  else parseNumberValue (c :: r).
Proof.
  intros H. cbn [parseValue skipWS]. rewrite H. reflexivity.
Qed.

Lemma parseElements_unfold (f : nat) (s : jsstring) :
  parseElements (S f) s =
  match parseValue f s with
  | Some (v, r) => parseElementsTail (parseElements f) 93%N v r
  | None => None
  end.
Proof. reflexivity. Qed.

Lemma parseMembers_unfold (f : nat) (s : jsstring) :
  parseMembers (S f) s =
  match parseMember (parseValue f) s with
  | Some (kv, r) => parseElementsTail (parseMembers f) 125%N kv r
  | None => None
  end.
Proof. reflexivity. Qed.


Lemma isDigitChar_opensValue (c : code_unit) :
  isDigitChar c = true -> opensValue c.
Proof.
  unfold isDigitChar, opensValue, isJSONWhiteSpace.
  rewrite andb_true_iff, !N.leb_le. intros [H1 H2].
  repeat split; try lia.
  rewrite !orb_false_iff, !N.eqb_neq. lia.
Qed.

Lemma NumberToString_head (x : Number) :
  canonical x ->
  exists c r, NumberToString x = c :: r /\
              (c = 45%N \/ isDigitChar c = true).
Proof.
  intros [Hlt Hx]. unfold NumberToString.
  destruct (digits x) as [|d ds].
  - exists 48%N, []. split; [reflexivity|right; reflexivity].
  - destruct Hx as [Hd Hlast]. destruct (negative x).
    + eexists; eexists. split; [reflexivity|left; reflexivity].
    + destruct (formatDigits_head d ds (point x) Hlt Hd Hlast)
        as [c [r [E Hc]]].
      exists c, r. split; [rewrite E; reflexivity|right; exact Hc].
Qed.

Lemma JSON_stringify_head (v : value) :
  wellFormed v ->
  exists c r, JSON_stringify v = c :: r /\ opensValue c.
Proof.
  intros Hwf. destruct Hwf as [|b|n Hn|s|l Hl|o Ho Hvs].
  - eexists; eexists. split; [reflexivity|repeat split; discriminate].
  - destruct b; eexists; eexists;
      (split; [reflexivity|repeat split; discriminate]).
  - destruct (NumberToString_head n Hn) as [c [r [E [Hc|Hc]]]].
    + exists c, r. split; [exact E|]. subst c. repeat split; discriminate.
    + exists c, r. split; [exact E|]. apply isDigitChar_opensValue. exact Hc.
  - eexists; eexists. split; [reflexivity|repeat split; discriminate].
  - eexists; eexists. split; [reflexivity|repeat split; discriminate].
  - eexists; eexists. split; [reflexivity|repeat split; discriminate].
Qed.


Lemma delimited_comma (rest : jsstring) : delimited (44%N :: rest).
Proof. repeat split; discriminate. Qed.

Lemma delimited_bracket (rest : jsstring) : delimited (93%N :: rest).
Proof. repeat split; discriminate. Qed.

Lemma delimited_brace (rest : jsstring) : delimited (125%N :: rest).
Proof. repeat split; discriminate. Qed.

Lemma joinWith_cons (sep p q : jsstring) (ps : list jsstring) :
  joinWith sep (p :: q :: ps) = p ++ sep ++ joinWith sep (q :: ps).
Proof. reflexivity. Qed.

Lemma parseElementsTail_more {A} (more : jsstring -> option (list A * jsstring))
    (close : code_unit) (x : A) (r : jsstring) :
  parseElementsTail more close x (44%N :: r) =
  match more r with
  | Some (l, rest) => Some (x :: l, rest)
  | None => None
  end.
Proof. reflexivity. Qed.

Lemma parseElementsTail_close {A}
    (more : jsstring -> option (list A * jsstring))
    (close : code_unit) (x : A) (r : jsstring) :
  isJSONWhiteSpace close = false -> close <> 44%N ->
  parseElementsTail more close x (close :: r) = Some ([x], r).
Proof.
  intros Hws Hc. unfold parseElementsTail. cbn [skipWS]. rewrite Hws.
  apply N.eqb_neq in Hc. rewrite Hc, N.eqb_refl. reflexivity.
Qed.

Lemma length_stringify_pos (v : value) :
  wellFormed v -> (0 < length (JSON_stringify v))%nat.
Proof.
  intros H. destruct (JSON_stringify_head v H) as [c [r [E _]]].
  rewrite E. simpl. lia.
Qed.

Lemma parseElements_joined (l : list value) :
  Forall wellFormed l -> Forall readsBack l -> l <> [] ->
  forall (fuel : nat) (rest : jsstring),
    (length (joinWith (JS ",") (map JSON_stringify l)) + 1 < fuel)%nat ->
    parseElements fuel
      (joinWith (JS ",") (map JSON_stringify l) ++ 93%N :: rest) =
    Some (l, rest).
Proof.
  intros Hwf Hrb. induction Hrb as [|v l Hv Hl IH]; [congruence|].
  intros _ fuel rest Hfuel.
  inversion Hwf as [|v' l' Hwv Hwl]; subst.
  destruct fuel as [|f]; [lia|]. rewrite parseElements_unfold.
  destruct l as [|w l].
  - cbn [map joinWith] in Hfuel |- *.
    rewrite (Hv f (93%N :: rest)); [|lia|apply delimited_bracket].
    apply parseElementsTail_close; [reflexivity|discriminate].
  - cbn [map] in Hfuel |- *. rewrite joinWith_cons in Hfuel |- *.
    rewrite !length_app in Hfuel. change (length (JS ",")) with 1%nat in Hfuel.
    rewrite <- !app_assoc. change (JS "," ++ ?x) with (44%N :: x).
    rewrite (Hv f); [|lia|apply delimited_comma].
    rewrite parseElementsTail_more.
    pose proof (length_stringify_pos v Hwv).
    cbn [app]. 
    rewrite IH; [reflexivity|exact Hwl|discriminate|].
    cbn [map]. lia.
Qed.


Lemma parseMember_memberText (val : jsstring -> option (value * jsstring))
    (k : jsstring) (v : value) (rest : jsstring) :
  val (JSON_stringify v ++ rest) = Some (v, rest) ->
  parseMember val (memberText (k, v) ++ rest) = Some ((k, v), rest).
Proof.
  intros H. unfold memberText, QuoteJSONString. cbn [fst snd].
  unfold parseMember. cbn [app skipWS].
  change (isJSONWhiteSpace 34%N) with false. cbv iota.
  change (N.eqb 34 34) with true. cbv iota.
  rewrite <- !app_assoc. cbn [app].
  rewrite parseChars_quoteUnits.
  change (JS ":" ++ ?x) with (58%N :: x). cbn [skipWS].
  change (isJSONWhiteSpace 58%N) with false. cbv iota.
  change (N.eqb 58 58) with true. cbv iota.
  rewrite H. reflexivity.
Qed.

Lemma length_memberText (k : jsstring) (v : value) :
  (length (JSON_stringify v) + 3 <= length (memberText (k, v)))%nat.
Proof.
  unfold memberText, QuoteJSONString. cbn [fst snd].
  rewrite !length_app. cbn [length]. rewrite length_app.
  change (length (JS ":")) with 1%nat. cbn [length]. lia.
Qed.

Lemma parseMembers_joined (o : list (jsstring * value)) :
  Forall (fun kv => wellFormed (snd kv)) o ->
  Forall (fun kv => readsBack (snd kv)) o -> o <> [] ->
  forall (fuel : nat) (rest : jsstring),
    (length (joinWith (JS ",") (map memberText o)) + 1 < fuel)%nat ->
    parseMembers fuel
      (joinWith (JS ",") (map memberText o) ++ 125%N :: rest) =
    Some (o, rest).
Proof.
  intros Hwf Hrb. induction Hrb as [|[k v] o Hv Ho IH]; [congruence|].
  intros _ fuel rest Hfuel. cbn [snd] in Hv.
  inversion Hwf as [|kv' o' Hwv Hwo]; subst. cbn [snd] in Hwv.
  destruct fuel as [|f]; [lia|]. rewrite parseMembers_unfold.
  pose proof (length_memberText k v) as Hlen.
  destruct o as [|kw o].
  - cbn [map joinWith] in Hfuel |- *.
    rewrite (parseMember_memberText (parseValue f) k v);
      [|apply Hv; [lia|apply delimited_brace]].
    apply parseElementsTail_close; [reflexivity|discriminate].
  - cbn [map] in Hfuel |- *. rewrite joinWith_cons in Hfuel |- *.
    rewrite !length_app in Hfuel. change (length (JS ",")) with 1%nat in Hfuel.
    rewrite <- !app_assoc. change (JS "," ++ ?x) with (44%N :: x).
    rewrite (parseMember_memberText (parseValue f) k v);
      [|apply Hv; [lia|apply delimited_comma]].
    rewrite parseElementsTail_more.
    cbn [app].
    rewrite IH; [reflexivity|exact Hwo|discriminate|].
    cbn [map]. lia.
Qed.

Lemma skipWS_opensValue (c : code_unit) (r : jsstring) :
  isJSONWhiteSpace c = false -> skipWS (c :: r) = c :: r.
Proof. intros H. cbn [skipWS]. rewrite H. reflexivity. Qed.

Lemma readsBack_all (v : value) : wellFormed v -> readsBack v.
Proof.
  induction v as [|b|n|s|l IH|o IH] using value_induction;
    intros Hwf fuel rest Hfuel Hrest.
  - destruct fuel as [|f]; [simpl in Hfuel; lia|]. reflexivity.
  - destruct fuel as [|f]; [simpl in Hfuel; lia|]. destruct b; reflexivity.
  - inversion Hwf as [| |n' Hn| | |]; subst.
    destruct fuel as [|f]; [simpl in Hfuel; lia|].
    destruct (NumberToString_head n Hn) as [c [r [E Hc]]].
    pose proof (parseNumber_NumberToString n rest Hn Hrest) as Hp.
    cbn [JSON_stringify]. rewrite E in Hp |- *. cbn [app] in Hp |- *.
    assert (Hopen : isJSONWhiteSpace c = false /\ N.eqb c 34 = false /\
                    N.eqb c 91 = false /\ N.eqb c 123 = false /\
                    N.eqb c 110 = false /\ N.eqb c 116 = false /\
                    N.eqb c 102 = false).
    { destruct Hc as [->|Hc]; [repeat split|].
      unfold isDigitChar in Hc. rewrite andb_true_iff, !N.leb_le in Hc.
      unfold isJSONWhiteSpace. rewrite !orb_false_iff, !N.eqb_neq. lia. }
    destruct Hopen as [H0 [H1 [H2 [H3 [H4 [H5 H6]]]]]].
    rewrite (parseValue_unfold f c _ H0), H1, H2, H3, H4, H5, H6.
    unfold parseNumberValue. rewrite Hp. reflexivity.
  - destruct fuel as [|f]; [simpl in Hfuel; lia|].
    cbn [JSON_stringify]. unfold QuoteJSONString. cbn [app].
    rewrite parseValue_unfold by reflexivity.
    change (N.eqb 34 34) with true. cbv iota.
    unfold parseStringValue. rewrite <- app_assoc. cbn [app].
    rewrite parseChars_quoteUnits. reflexivity.
  - inversion Hwf as [| | | |l' Hl|]; subst.
    destruct fuel as [|f]; [simpl in Hfuel; lia|].
    cbn [JSON_stringify] in Hfuel |- *.
    change (JS "[" ++ ?x) with (91%N :: x) in Hfuel |- *.
    change (JS "]") with [93%N] in Hfuel |- *.
    cbn [app]. rewrite parseValue_unfold by reflexivity.
    change (N.eqb 91 34) with false. change (N.eqb 91 91) with true.
    cbv iota. rewrite <- app_assoc. cbn [app].
    destruct l as [|v l]; [reflexivity|].
    assert (Hrb : Forall readsBack (v :: l)).
    { rewrite Forall_forall in IH, Hl |- *. intros x Hx.
      apply IH; [exact Hx|apply Hl; exact Hx]. }
    cbn [length] in Hfuel. rewrite length_app in Hfuel. cbn [length] in Hfuel.
    pose proof (parseElements_joined (v :: l) Hl Hrb ltac:(discriminate)
                  f rest ltac:(lia)) as Hp.
    unfold parseArray.
    assert (Hhead : exists c r,
              joinWith (JS ",") (map JSON_stringify (v :: l)) = c :: r /\
              opensValue c).
    { inversion Hl as [|v' l' Hv Hl']; subst.
      destruct (JSON_stringify_head v Hv) as [c [r [E Hc]]].
      destruct l as [|w l]; cbn [map].
      - exists c, r. split; [exact E|exact Hc].
      - rewrite joinWith_cons, E. eexists; eexists.
        split; [reflexivity|exact Hc]. }
    destruct Hhead as [c [r [E [Hws [Hc _]]]]].
    rewrite E in Hp |- *. cbn [app] in Hp |- *.
    rewrite (skipWS_opensValue c _ Hws).
    apply N.eqb_neq in Hc. rewrite Hc.
    unfold jsstring, code_unit in *. rewrite Hp. reflexivity.
  - inversion Hwf as [| | | | |o' Ho Hvs]; subst.
    destruct fuel as [|f]; [simpl in Hfuel; lia|].
    cbn [JSON_stringify] in Hfuel |- *.
    change (JS "{" ++ ?x) with (123%N :: x) in Hfuel |- *.
    change (JS "}") with [125%N] in Hfuel |- *.
    cbn [app]. rewrite parseValue_unfold by reflexivity.
    change (N.eqb 123 34) with false. change (N.eqb 123 91) with false.
    change (N.eqb 123 123) with true.
    cbv iota. rewrite <- app_assoc. cbn [app].
    destruct o as [|[k v] o]; [reflexivity|].
    assert (Hrb : Forall (fun kv => readsBack (snd kv)) ((k, v) :: o)).
    { rewrite Forall_forall in IH, Hvs |- *. intros x Hx.
      apply IH; [exact Hx|apply Hvs; exact Hx]. }
    cbn [length] in Hfuel. rewrite length_app in Hfuel. cbn [length] in Hfuel.
    change (map (fun kv => QuoteJSONString (fst kv) ++ JS ":" ++
                           JSON_stringify (snd kv)) ((k, v) :: o))
      with (map memberText ((k, v) :: o)) in Hfuel |- *.
    pose proof (parseMembers_joined ((k, v) :: o) Hvs Hrb ltac:(discriminate)
                  f rest ltac:(lia)) as Hp.
    unfold parseObject.
    assert (Hhead : exists r,
              joinWith (JS ",") (map memberText ((k, v) :: o)) = 34%N :: r).
    { destruct o as [|kw o]; cbn [map].
      - eexists. reflexivity.
      - rewrite joinWith_cons. eexists. reflexivity. }
    destruct Hhead as [r E].
    rewrite E in Hp |- *. cbn [app] in Hp |- *.
    rewrite skipWS_opensValue by reflexivity.
    change (N.eqb 34 125) with false. cbv iota.
    unfold jsstring, code_unit in *. rewrite Hp, Ho. reflexivity.
Qed.

(** [JSON.parse(JSON.stringify(v))] is [v]. *)
Theorem JSON_parse_stringify (v : value) :
  wellFormed v -> JSON_parse (JSON_stringify v) = inr v.
Proof.
  intros Hwf. unfold JSON_parse.
  pose proof (readsBack_all v Hwf (S (length (JSON_stringify v))) []
                ltac:(lia) I) as H.
  rewrite app_nil_r in H. rewrite H. reflexivity.
Qed.

(** ** The numbers of literals are in scientific form *)

Lemma dropZeros_split (l : list N) :
  exists a, l = zeros a ++ dropZeros l.
Proof.
  induction l as [|d l [a IH]]; [exists O; reflexivity|].
  destruct d as [|p].
  - exists (S a). simpl. f_equal. exact IH.
  - exists O. reflexivity.
Qed.

Lemma dropZeros_head (l : list N) (d : N) (t : list N) :
  dropZeros l = d :: t -> d <> 0%N.
Proof.
  induction l as [|x l IH]; simpl; [discriminate|].
  destruct x; [exact IH|]. intros H. injection H as <- _. discriminate.
Qed.

Lemma dropZeros_nil_undecimal (l : list N) :
  dropZeros l = [] -> undecimal l = 0%N.
Proof.
  induction l as [|x l IH]; simpl; [reflexivity|].
  destruct x; [|discriminate]. exact IH.
Qed.

Lemma dropTrailingZeros_split (l : list N) :
  exists b, l = dropTrailingZeros l ++ zeros b.
Proof.
  unfold dropTrailingZeros.
  destruct (dropZeros_split (rev l)) as [b E]. exists b.
  apply (f_equal (@rev N)) in E.
  rewrite rev_involutive, rev_app_distr, rev_zeros in E. exact E.
Qed.

Lemma dropTrailingZeros_last (l : list N) :
  dropTrailingZeros l <> [] -> last (dropTrailingZeros l) 1%N <> 0%N.
Proof.
  unfold dropTrailingZeros. intros Hne.
  destruct (dropZeros (rev l)) as [|d t] eqn:E; [contradiction|].
  apply dropZeros_head in E. simpl. rewrite last_last. exact E.
Qed.

Lemma dropTrailingZeros_nonzero_head (d : N) (t : list N) :
  d <> 0%N -> exists t', dropTrailingZeros (d :: t) = d :: t'.
Proof.
  intros Hd. destruct (dropTrailingZeros_split (d :: t)) as [b E].
  destruct (dropTrailingZeros (d :: t)) as [|x t'].
  - simpl in E. destruct b; simpl in E; [discriminate|].
    injection E as E _. contradiction.
  - injection E as -> _. exists t'. reflexivity.
Qed.

Lemma mkDecimal_canonical (neg : bool) (int frac : list N) (e : Z) :
  Forall (fun d => d < 10)%N (int ++ frac) ->
  (dropZeros (int ++ frac) = [] -> neg = false) ->
  canonical (mkDecimal neg int frac e).
Proof.
  intros Hlt Hneg. unfold mkDecimal.
  destruct (dropZeros (int ++ frac)) as [|d t] eqn:E.
  - split; [constructor|]. simpl. split; [reflexivity|auto].
  - pose proof (dropZeros_head _ _ _ E) as Hd.
    destruct (dropTrailingZeros_nonzero_head d t Hd) as [t' E'].
    pose proof (dropTrailingZeros_last (d :: t)) as Hlast.
    pose proof (dropTrailingZeros_split (d :: t)) as [b Hb].
    rewrite E' in Hlast, Hb |- *.
    split; simpl.
    + destruct (dropZeros_split (int ++ frac)) as [a Ha].
      rewrite Ha, E, Hb in Hlt.
      apply Forall_app in Hlt. destruct Hlt as [_ Hlt].
      apply Forall_app in Hlt. tauto.
    + split; [exact Hd|]. apply Hlast. discriminate.
Qed.

Lemma Number_of_Z_canonical (z : Z) : canonical (Number_of_Z z).
Proof.
  unfold Number_of_Z. apply mkDecimal_canonical.
  - rewrite app_nil_r. apply decimal_lt10.
  - rewrite app_nil_r. intros H. apply dropZeros_nil_undecimal in H.
    rewrite undecimal_decimal in H. apply Z.ltb_ge. lia.
Qed.

(** ** The array of a list of tasks is well formed *)

Lemma objectOf_task_members (a b c d e f : value) :
  objectOf [ (JS "id", a); (JS "text", b); (JS "completed", c);
             (JS "category", d); (JS "dueDate", e); (JS "dueTime", f) ] =
  [ (JS "id", a); (JS "text", b); (JS "completed", c);
    (JS "category", d); (JS "dueDate", e); (JS "dueTime", f) ].
Proof. vm_compute. reflexivity. Qed.

Lemma taskObject_wellFormed (task : Task.t) : wellFormed (taskObject task).
Proof.
  unfold taskObject. apply wf_obj; [apply objectOf_task_members|].
  repeat (apply Forall_cons; cbn [snd]); try apply Forall_nil;
    try constructor.
  - apply Number_of_Z_canonical.
  - destruct (Task.dueDate task); constructor.
  - destruct (Task.dueTime task); constructor.
Qed.

Lemma tasksArray_wellFormed (l : list Task.t) : wellFormed (tasksArray l).
Proof.
  unfold tasksArray. apply wf_arr. apply Forall_forall.
  intros v Hv. apply in_map_iff in Hv. destruct Hv as [task [<- _]].
  apply taskObject_wellFormed.
Qed.


(** ** Array indices *)

Lemma uint_digits_digits_uint (ds : list N) :
  Forall (fun d => d < 10)%N ds -> uint_digits (digits_uint ds) = ds.
Proof.
  induction 1 as [|d ds Hd Hds IH]; simpl; [reflexivity|].
  destruct d as [|p]; simpl; [rewrite IH; reflexivity|].
  do 4 (destruct p as [p|p|]; simpl; try rewrite IH; try reflexivity;
        try (exfalso; lia)).
Qed.

Lemma digitChar_digitValue (c : code_unit) :
  isDigitChar c = true -> digitChar (digitValue c) = c.
Proof.
  unfold isDigitChar, digitChar, digitValue.
  rewrite andb_true_iff, !N.leb_le. lia.
Qed.

Lemma digitValue_lt10 (c : code_unit) :
  isDigitChar c = true -> (digitValue c < 10)%N.
Proof.
  unfold isDigitChar, digitValue. rewrite andb_true_iff, !N.leb_le. lia.
Qed.

Lemma map_digitValue_lt10 (k : jsstring) :
  forallb isDigitChar k = true ->
  Forall (fun d => d < 10)%N (map digitValue k).
Proof.
  rewrite forallb_forall. intros H. apply Forall_forall.
  intros d Hd. apply in_map_iff in Hd. destruct Hd as [c [<- Hc]].
  apply digitValue_lt10. apply H. exact Hc.
Qed.

Lemma map_digitChar_digitValue (k : jsstring) :
  forallb isDigitChar k = true -> map digitChar (map digitValue k) = k.
Proof.
  induction k as [|c k IH]; simpl; [reflexivity|].
  rewrite andb_true_iff. intros [Hc Hk].
  rewrite (digitChar_digitValue c Hc), (IH Hk). reflexivity.
Qed.

(** The digits of an array index, without leading zero, are a normal
    decimal numeral. *)
Lemma unorm_index_digits (c : code_unit) (k : jsstring) :
  isDigitChar c = true ->
  negb (N.eqb c 48) || match k with [] => true | _ => false end = true ->
  Decimal.unorm (digits_uint (map digitValue (c :: k))) =
  digits_uint (map digitValue (c :: k)).
Proof.
  intros Hc Hz. simpl map.
  assert (Hv : (digitValue c < 10)%N) by (apply digitValue_lt10; exact Hc).
  destruct (N.eqb_spec c 48) as [->|Hne].
  - simpl in Hz. destruct k; [reflexivity|discriminate].
  - assert (Hnz : digitValue c <> 0%N).
    { unfold digitValue. unfold isDigitChar in Hc.
      rewrite andb_true_iff, !N.leb_le in Hc. lia. }
    destruct (digitValue c) as [|p]; [congruence|].
    do 4 (destruct p as [p|p|]; try reflexivity; try (exfalso; lia)).
Qed.

Lemma arrayIndex_inj (k k' : jsstring) (i : N) :
  arrayIndex k = Some i -> arrayIndex k' = Some i -> k = k'.
Proof.
  assert (Hshape : forall k i, arrayIndex k = Some i ->
            forallb isDigitChar k = true /\
            Decimal.unorm (digits_uint (map digitValue k)) =
            digits_uint (map digitValue k) /\
            undecimal (map digitValue k) = i).
  { clear. intros k i. unfold arrayIndex. destruct k as [|c k]; [discriminate|].
    destruct (forallb isDigitChar (c :: k) &&
              (negb (N.eqb c 48) || match k with [] => true | _ => false end) &&
              Nat.leb (length (c :: k)) 10) eqn:Hcond; [|discriminate].
    apply andb_true_iff in Hcond. destruct Hcond as [Hcond _].
    apply andb_true_iff in Hcond. destruct Hcond as [Hd Hz].
    cbv zeta.
    destruct (undecimal (map digitValue (c :: k)) <=? 4294967294)%N;
      [|discriminate].
    intros E. injection E as E. split; [exact Hd|]. split; [|exact E].
    apply unorm_index_digits; [|exact Hz].
    simpl in Hd. apply andb_true_iff in Hd. tauto. }
  intros H H'.
  destruct (Hshape k i H) as [Hd [Hn Hi]].
  destruct (Hshape k' i H') as [Hd' [Hn' Hi']].
  assert (E : digits_uint (map digitValue k) = digits_uint (map digitValue k')).
  { rewrite <- Hn, <- Hn'. apply DecimalN.Unsigned.of_inj.
    unfold undecimal in Hi, Hi'. congruence. }
  apply (f_equal uint_digits) in E.
  rewrite !uint_digits_digits_uint in E
    by (apply map_digitValue_lt10; assumption).
  rewrite <- (map_digitChar_digitValue k Hd).
  rewrite <- (map_digitChar_digitValue k' Hd').
  rewrite E. reflexivity.
Qed.

(** ** [CreateDataProperty] keeps the properties in order *)

Lemma hasKey_In (k : jsstring) (o : list (jsstring * value)) :
  hasKey k o = true <-> In k (keys o).
Proof.
  induction o as [|[k' v'] o IH]; simpl; [split; [discriminate|tauto]|].
  rewrite orb_true_iff, jsstring_eqb_eq, IH. tauto.
Qed.

Lemma keys_replaceKey (k : jsstring) (v : value) (o : list (jsstring * value)) :
  keys (replaceKey k v o) = keys o.
Proof.
  induction o as [|[k' v'] o IH]; simpl; [reflexivity|].
  destruct (jsstring_eqb k' k); simpl; [reflexivity|].
  rewrite IH. reflexivity.
Qed.

Lemma In_keys_insertIndex (i : N) (k : jsstring) (v : value)
    (o : list (jsstring * value)) (x : jsstring) :
  In x (keys (insertIndex i k v o)) <-> x = k \/ In x (keys o).
Proof.
  induction o as [|[k' v'] o IH]; simpl; [intuition congruence|].
  destruct (arrayIndex k') as [j|]; [destruct (j <? i)%N|]; simpl;
    try rewrite IH; intuition congruence.
Qed.

Lemma ordered_insertIndex (i : N) (k : jsstring) (v : value)
    (o : list (jsstring * value)) :
  arrayIndex k = Some i -> ~ In k (keys o) -> ordered o ->
  ordered (insertIndex i k v o).
Proof.
  unfold ordered. intros Hk Hnew Ho.
  induction o as [|[k' v'] o IH]; simpl.
  - constructor; constructor.
  - simpl in Ho, Hnew. inversion Ho as [|a l Hsorted Hall]; subst.
    assert (Hhere : StronglySorted precedes (k :: k' :: keys o) \/
                    exists j, arrayIndex k' = Some j /\ (j < i)%N).
    { destruct (arrayIndex k') as [j|] eqn:Ek'.
      - destruct (N.lt_trichotomy j i) as [L|[E|L]].
        + right. exists j. split; [reflexivity|exact L].
        + exfalso. subst j. apply Hnew. left.
          apply (arrayIndex_inj k' k i Ek' Hk).
        + left. constructor; [exact Ho|]. constructor.
          * split; [intros E; apply Hnew; left; symmetry; exact E|].
            rewrite Hk, Ek'. exact L.
          * rewrite Forall_forall in Hall |- *. intros x Hx.
            specialize (Hall x Hx). destruct Hall as [Hne Hord].
            split; [intros E; apply Hnew; right; rewrite E; exact Hx|].
            rewrite Hk. rewrite Ek' in Hord.
            destruct (arrayIndex x); [lia|exact I].
      - left. constructor; [exact Ho|]. constructor.
        * split; [intros E; apply Hnew; left; symmetry; exact E|].
          rewrite Hk, Ek'. exact I.
        * rewrite Forall_forall in Hall |- *. intros x Hx.
          specialize (Hall x Hx). destruct Hall as [Hne Hord].
          split; [intros E; apply Hnew; right; rewrite E; exact Hx|].
          rewrite Hk. rewrite Ek' in Hord.
          destruct (arrayIndex x); [contradiction|exact I]. }
    destruct Hhere as [Hhere|[j [Ek' L]]].
    + destruct (arrayIndex k') as [j|] eqn:Ek'; [|exact Hhere].
      destruct (N.ltb_spec j i) as [L|L]; [|exact Hhere].
      inversion Hhere as [|a l _ Hk']; subst.
      inversion Hk' as [|a l [_ Hord] _]; subst.
      rewrite Hk, Ek' in Hord. lia.
    + rewrite Ek'. apply N.ltb_lt in L. rewrite L. simpl.
      constructor.
      * apply IH; [tauto|exact Hsorted].
      * apply Forall_forall. intros x Hx.
        apply In_keys_insertIndex in Hx. destruct Hx as [->|Hx].
        -- split; [intros E; apply Hnew; left; exact E|].
           rewrite Ek', Hk. apply N.ltb_lt. exact L.
        -- rewrite Forall_forall in Hall. apply Hall. exact Hx.
Qed.

Lemma keys_app (o o' : list (jsstring * value)) :
  keys (o ++ o') = keys o ++ keys o'.
Proof. apply map_app. Qed.

Lemma StronglySorted_snoc {A} (R : A -> A -> Prop) (l : list A) (x : A) :
  StronglySorted R l -> Forall (fun y => R y x) l ->
  StronglySorted R (l ++ [x]).
Proof.
  induction 1 as [|a l Hl IH Ha]; intros Hx; simpl.
  - constructor; constructor.
  - inversion Hx; subst. constructor; [apply IH; assumption|].
    apply Forall_app. split; [exact Ha|]. constructor; [assumption|constructor].
Qed.

Lemma StronglySorted_before {A} (R : A -> A -> Prop) (l1 l2 : list A) (x : A) :
  StronglySorted R (l1 ++ x :: l2) ->
  StronglySorted R l1 /\ Forall (fun y => R y x) l1.
Proof.
  induction l1 as [|a l1 IH]; simpl; intros H.
  - split; constructor.
  - inversion H as [|b l Hl Ha]; subst. destruct (IH Hl) as [H1 H2].
    apply Forall_app in Ha. destruct Ha as [Ha1 Ha2]. inversion Ha2; subst.
    split; constructor; assumption.
Qed.

Lemma ordered_append (k : jsstring) (v : value) (o : list (jsstring * value)) :
  arrayIndex k = None -> ~ In k (keys o) -> ordered o ->
  ordered (o ++ [(k, v)]).
Proof.
  unfold ordered. intros Hk Hnew Ho. rewrite keys_app. simpl.
  apply StronglySorted_snoc; [exact Ho|].
  apply Forall_forall. intros x Hx. split.
  - intros E. apply Hnew. rewrite <- E. exact Hx.
  - rewrite Hk. destruct (arrayIndex x); exact I.
Qed.

Lemma createDataProperty_ordered (k : jsstring) (v : value)
    (o : list (jsstring * value)) :
  ordered o -> ordered (createDataProperty k v o).
Proof.
  intros Ho. unfold createDataProperty.
  destruct (hasKey k o) eqn:Hk.
  - unfold ordered. rewrite keys_replaceKey. exact Ho.
  - assert (Hnew : ~ In k (keys o)).
    { intros H. apply hasKey_In in H. congruence. }
    destruct (arrayIndex k) as [i|] eqn:Ek.
    + apply ordered_insertIndex; assumption.
    + apply ordered_append; assumption.
Qed.

Lemma fold_createDataProperty_ordered (ms acc : list (jsstring * value)) :
  ordered acc ->
  ordered (fold_left (fun o kv => createDataProperty (fst kv) (snd kv) o)
             ms acc).
Proof.
  revert acc. induction ms as [|[k v] ms IH]; intros acc Hacc; simpl.
  - exact Hacc.
  - apply IH. apply createDataProperty_ordered. exact Hacc.
Qed.

Lemma objectOf_ordered (ms : list (jsstring * value)) : ordered (objectOf ms).
Proof. apply fold_createDataProperty_ordered. constructor. Qed.

(** A property whose key every key of the object precedes is created at
    the end. *)
Lemma insertIndex_last (i : N) (k : jsstring) (v : value)
    (o : list (jsstring * value)) :
  arrayIndex k = Some i ->
  Forall (fun x => precedes x k) (keys o) ->
  insertIndex i k v o = o ++ [(k, v)].
Proof.
  intros Hk. induction o as [|[k' v'] o IH]; simpl; intros H;
    [reflexivity|].
  inversion H as [|a l [_ Hord] Hrest]; subst. rewrite Hk in Hord.
  destruct (arrayIndex k') as [j|]; [|contradiction].
  apply N.ltb_lt in Hord. rewrite Hord. rewrite (IH Hrest). reflexivity.
Qed.

Lemma createDataProperty_last (k : jsstring) (v : value)
    (o : list (jsstring * value)) :
  Forall (fun x => precedes x k) (keys o) ->
  createDataProperty k v o = o ++ [(k, v)].
Proof.
  intros H. unfold createDataProperty.
  destruct (hasKey k o) eqn:Hk.
  - apply hasKey_In in Hk. rewrite Forall_forall in H.
    destruct (H k Hk) as [Hne _]. congruence.
  - destruct (arrayIndex k) as [i|] eqn:Ek; [|reflexivity].
    apply insertIndex_last; assumption.
Qed.

Lemma fold_createDataProperty_ordered_id (rest acc : list (jsstring * value)) :
  ordered (acc ++ rest) ->
  fold_left (fun o kv => createDataProperty (fst kv) (snd kv) o) rest acc =
  acc ++ rest.
Proof.
  revert acc. induction rest as [|[k v] rest IH]; intros acc H; simpl.
  - rewrite app_nil_r. reflexivity.
  - unfold ordered in H. rewrite keys_app in H. simpl in H.
    destruct (StronglySorted_before _ _ _ _ H) as [_ Hbefore].
    rewrite (createDataProperty_last k v acc Hbefore).
    rewrite IH; rewrite <- app_assoc; [reflexivity|].
    unfold ordered. rewrite keys_app. exact H.
Qed.

(** An object whose properties are in order is the object of its own
    member list. *)
Lemma objectOf_fixed (o : list (jsstring * value)) :
  ordered o -> objectOf o = o.
Proof. intros H. apply (fold_createDataProperty_ordered_id o []). exact H. Qed.

Lemma objectOf_idempotent (ms : list (jsstring * value)) :
  objectOf (objectOf ms) = objectOf ms.
Proof. apply objectOf_fixed. apply objectOf_ordered. Qed.


(** ** What [JSON.parse] returns has its objects in order *)

Section PropertyValues.

Variable Q : value -> Prop.

Lemma Forall_replaceKey (k : jsstring) (v : value)
    (o : list (jsstring * value)) :
  Q v -> Forall (fun kv => Q (snd kv)) o ->
  Forall (fun kv => Q (snd kv)) (replaceKey k v o).
Proof.
  intros Hv. induction 1 as [|[k' v'] o Hkv Ho IH]; simpl; [constructor|].
  destruct (jsstring_eqb k' k); constructor; assumption.
Qed.

Lemma Forall_insertIndex (i : N) (k : jsstring) (v : value)
    (o : list (jsstring * value)) :
  Q v -> Forall (fun kv => Q (snd kv)) o ->
  Forall (fun kv => Q (snd kv)) (insertIndex i k v o).
Proof.
  intros Hv. induction 1 as [|[k' v'] o Hkv Ho IH]; simpl.
  - constructor; [exact Hv|constructor].
  - destruct (arrayIndex k') as [j|]; [destruct (j <? i)%N|];
      repeat (constructor; try assumption).
Qed.

Lemma Forall_createDataProperty (k : jsstring) (v : value)
    (o : list (jsstring * value)) :
  Q v -> Forall (fun kv => Q (snd kv)) o ->
  Forall (fun kv => Q (snd kv)) (createDataProperty k v o).
Proof.
  intros Hv Ho. unfold createDataProperty.
  destruct (hasKey k o); [apply Forall_replaceKey; assumption|].
  destruct (arrayIndex k); [apply Forall_insertIndex; assumption|].
  apply Forall_app. split; [exact Ho|]. constructor; [exact Hv|constructor].
Qed.

Lemma Forall_objectOf (ms : list (jsstring * value)) :
  Forall (fun kv => Q (snd kv)) ms ->
  Forall (fun kv => Q (snd kv)) (objectOf ms).
Proof.
  unfold objectOf.
  generalize (@nil (jsstring * value))
             (Forall_nil (fun kv : jsstring * value => Q (snd kv))).
  induction ms as [|[k v] ms IH]; intros acc Hacc Hms; simpl; [exact Hacc|].
  inversion Hms; subst. apply IH; [|assumption].
  apply Forall_createDataProperty; assumption.
Qed.

End PropertyValues.

Lemma parseElementsTail_Forall {A} (Q : A -> Prop)
    (more : jsstring -> option (list A * jsstring)) (close : code_unit)
    (x : A) (r : jsstring) (l : list A) (rest : jsstring) :
  (forall s l' r', more s = Some (l', r') -> Forall Q l') ->
  Q x ->
  parseElementsTail more close x r = Some (l, rest) -> Forall Q l.
Proof.
  intros Hmore Hx. unfold parseElementsTail.
  destruct (skipWS r) as [|c r']; [discriminate|].
  destruct (N.eqb c 44).
  - destruct (more r') as [[l' r'']|] eqn:E; [|discriminate].
    intros H. injection H as <- _. constructor; [exact Hx|].
    apply (Hmore _ _ _ E).
  - destruct (N.eqb c close); [|discriminate].
    intros H. injection H as <- _. constructor; [exact Hx|constructor].
Qed.

Lemma parseMember_value (Q : value -> Prop)
    (val : jsstring -> option (value * jsstring))
    (s : jsstring) (kv : jsstring * value) (r : jsstring) :
  (forall s' v r', val s' = Some (v, r') -> Q v) ->
  parseMember val s = Some (kv, r) -> Q (snd kv).
Proof.
  intros Hval. unfold parseMember.
  destruct (skipWS s) as [|q r0]; [discriminate|].
  destruct (N.eqb q 34); [|discriminate].
  destruct (parseChars r0) as [[k r1]|]; [|discriminate].
  destruct (skipWS r1) as [|c r2]; [discriminate|].
  destruct (N.eqb c 58); [|discriminate].
  destruct (val r2) as [[v r3]|] eqn:E; [|discriminate].
  intros H. injection H as <- _. simpl. apply (Hval _ _ _ E).
Qed.

Lemma parse_objectsInOrder (fuel : nat) :
  (forall s v r, parseValue fuel s = Some (v, r) -> objectsInOrder v) /\
  (forall s l r, parseElements fuel s = Some (l, r) ->
                 Forall objectsInOrder l) /\
  (forall s ms r, parseMembers fuel s = Some (ms, r) ->
                  Forall (fun kv => objectsInOrder (snd kv)) ms).
Proof.
  induction fuel as [|f [IHv [IHe IHm]]].
  - repeat split; intros; discriminate.
  - split; [|split].
    + intros s v r. cbn [parseValue].
      destruct (skipWS s) as [|c t]; [discriminate|].
      destruct (N.eqb c 34).
      { unfold parseStringValue. destruct (parseChars t) as [[str rest]|];
          [|discriminate].
        intros H. injection H as <- _. constructor. }
      destruct (N.eqb c 91).
      { unfold parseArray. destruct (skipWS t) as [|d t']; [discriminate|].
        destruct (N.eqb d 93).
        - intros H. injection H as <- _. constructor. constructor.
        - destruct (parseElements f t) as [[l rest]|] eqn:E; [|discriminate].
          intros H. injection H as <- _. constructor. apply (IHe _ _ _ E). }
      destruct (N.eqb c 123).
      { unfold parseObject. destruct (skipWS t) as [|d t']; [discriminate|].
        destruct (N.eqb d 125).
        - intros H. injection H as <- _. constructor; [reflexivity|constructor].
        - destruct (parseMembers f t) as [[ms rest]|] eqn:E; [|discriminate].
          intros H. injection H as <- _. constructor.
          + apply objectOf_idempotent.
          + apply Forall_objectOf. apply (IHm _ _ _ E). }
      destruct (N.eqb c 110).
      { unfold parseLiteral. destruct (stripPrefix _ t); [|discriminate].
        intros H. injection H as <- _. constructor. }
      destruct (N.eqb c 116).
      { unfold parseLiteral. destruct (stripPrefix _ t); [|discriminate].
        intros H. injection H as <- _. constructor. }
      destruct (N.eqb c 102).
      { unfold parseLiteral. destruct (stripPrefix _ t); [|discriminate].
        intros H. injection H as <- _. constructor. }
      unfold parseNumberValue. destruct (parseNumber (c :: t)) as [[n rest]|];
        [|discriminate].
      intros H. injection H as <- _. constructor.
    + intros s l r. cbn [parseElements].
      destruct (parseValue f s) as [[v t]|] eqn:E; [|discriminate].
      apply parseElementsTail_Forall; [exact IHe|apply (IHv _ _ _ E)].
    + intros s ms r. cbn [parseMembers].
      destruct (parseMember (parseValue f) s) as [[kv t]|] eqn:E;
        [|discriminate].
      apply (parseElementsTail_Forall (fun kv => objectsInOrder (snd kv)));
        [exact IHm|].
      apply (parseMember_value objectsInOrder _ _ _ _ IHv E).
Qed.

Lemma JSON_parse_objectsInOrder (text : jsstring) (v : value) :
  JSON_parse text = inr v -> objectsInOrder v.
Proof.
  unfold JSON_parse.
  destruct (parseValue (S (length text)) text) as [[v' rest]|] eqn:E;
    [|discriminate].
  destruct (skipWS rest); [|discriminate].
  intros H. injection H as <-.
  apply (proj1 (parse_objectsInOrder _) _ _ _ E).
Qed.

(** ** Saving and loading again *)

Lemma loadEffect_shape (storage : Storage) :
  exists c v,
    loadEffect (mountEnv storage) = Normal tt (mkEnv storage c true v).
Proof.
  destruct (items storage tasksKey) as [[|c s]|] eqn:H.
  - eexists; eexists. apply (loadEffect_empty_string storage H).
  - destruct (JSON_parse (c :: s)) as [e|v] eqn:Hp.
    + eexists; eexists.
      apply (loadEffect_syntax_error storage (c :: s) e H);
        [discriminate|exact Hp].
    + eexists; eexists.
      apply (loadEffect_parsed storage (c :: s) v H); [discriminate|exact Hp].
  - eexists; eexists. apply (loadEffect_nothing_stored storage H).
Qed.


Lemma mount_parsed (storage : Storage) (text : jsstring) (v : value) :
  items storage tasksKey = Some text -> text <> [] ->
  JSON_parse text = inr v ->
  mount (mountEnv storage) = Normal tt (mkEnv storage [] false v).
Proof.
  intros H Hne Hp. unfold mount, bind.
  rewrite (loadEffect_parsed storage text v H Hne Hp). reflexivity.
Qed.

(** After the first render the save hook does what [setItem] does with the
    text of the tasks: it returns with the item set when the storage accepts
    the write, and throws, with nothing changed, when it does not. *)
Lemma saveEffect_accepted (env : Env) :
  isFirstRender env = false ->
  writable (localStorage env) tasksKey (JSON_stringify (tasksCell env))
  = true ->
  saveEffect env =
  Normal tt
    (mkEnv (stored tasksKey (JSON_stringify (tasksCell env))
              (localStorage env))
       (console env) false (tasksCell env)).
Proof.
  intros Hfirst Hroom.
  unfold saveEffect, bind, getIsFirstRender. rewrite Hfirst.
  unfold getTasksCell, setItem. rewrite Hroom, Hfirst. reflexivity.
Qed.

Lemma saveEffect_refused (env : Env) :
  isFirstRender env = false ->
  writable (localStorage env) tasksKey (JSON_stringify (tasksCell env))
  = false ->
  saveEffect env = Throw QuotaExceededError env.
Proof.
  intros Hfirst Hroom.
  unfold saveEffect, bind, getIsFirstRender. rewrite Hfirst.
  unfold getTasksCell, setItem. rewrite Hroom. reflexivity.
Qed.

(** A component mounted on the storage an accepted save left loads the
    value that was saved. *)
Lemma mount_stored (storage : Storage) (v : value) :
  wellFormed v ->
  mount (mountEnv (stored tasksKey (JSON_stringify v) storage)) =
  Normal tt
    (mkEnv (stored tasksKey (JSON_stringify v) storage) [] false v).
Proof.
  intros Hwf. apply (mount_parsed _ (JSON_stringify v)).
  - reflexivity.
  - destruct (JSON_stringify_head _ Hwf) as [c [r [E _]]].
    rewrite E. discriminate.
  - apply JSON_parse_stringify. exact Hwf.
Qed.

(** What the first render leaves in the [tasks] cell has its objects in
    order: it is the empty array or a value [JSON.parse] returned. *)
Lemma mount_objectsInOrder (storage : Storage) (env : Env) :
  mount (mountEnv storage) = Normal tt env -> objectsInOrder (tasksCell env).
Proof.
  unfold mount, bind.
  destruct (items storage tasksKey) as [[|c s]|] eqn:H.
  - rewrite (loadEffect_empty_string storage H). simpl.
    intros E. injection E as <-. simpl. constructor. constructor.
  - destruct (JSON_parse (c :: s)) as [e|v] eqn:Hp.
    + rewrite (loadEffect_syntax_error storage (c :: s) e H);
        [|discriminate|exact Hp].
      simpl. intros E. injection E as <-. simpl. constructor. constructor.
    + rewrite (loadEffect_parsed storage (c :: s) v H);
        [|discriminate|exact Hp].
      simpl. intros E. injection E as <-. simpl.
      apply (JSON_parse_objectsInOrder _ _ Hp).
  - rewrite (loadEffect_nothing_stored storage H). simpl.
    intros E. injection E as <-. simpl. constructor. constructor.
Qed.

(** A collection is a value that [JSON.stringify] and [JSON.parse]
    preserve. *)
Lemma taskRecord_wellFormed (v : value) : taskRecord v -> wellFormed v.
Proof.
  intros [id [text [completed [category [dueDate [dueTime [[Hid _] ->]]]]]]].
  unfold recordObject. apply wf_obj; [apply objectOf_task_members|].
  repeat (apply Forall_cons; cbn [snd]); try apply Forall_nil;
    try constructor.
  - exact Hid.
  - destruct dueDate; constructor.
  - destruct dueTime; constructor.
Qed.

Lemma collection_wellFormed (v : value) : collection v -> wellFormed v.
Proof.
  intros [records [-> H]]. apply wf_arr.
  apply Forall_forall. intros r Hr. apply taskRecord_wellFormed.
  rewrite Forall_forall in H. apply H. exact Hr.
Qed.

(** The array of a list of tasks whose identifiers are safe integers is a
    collection. *)
Lemma tasksArray_collection (l : list Task.t) :
  Forall (fun task => safeInteger (Task.id task)) l ->
  collection (tasksArray l).
Proof.
  intros H. exists (map taskObject l). split; [reflexivity|].
  induction H as [|task l Hid Hl IH]; simpl; constructor; [|exact IH].
  exists (Number_of_Z (Task.id task)), (Task.text task),
    (Task.completed task), (Task.category task), (Task.dueDate task),
    (Task.dueTime task).
  split; [|reflexivity].
  split; [apply Number_of_Z_canonical|].
  left. exists (Task.id task). split; [exact Hid|reflexivity].
Qed.




(** * Further properties of [TodoApp] *)

(** ** What the handlers keep true of every task *)

Lemma or_null_not_empty (s : jsstring) : or_null s <> Some [].
Proof. destruct s; discriminate. Qed.

Lemma wellMade_with_completed (c : bool) (task : Task.t) :
  wellMade task -> wellMade (Task.with_completed c task).
Proof. intros H. exact H. Qed.

Lemma wellMade_handle (ev : Event) (st : State) :
  Forall wellMade (tasks st) -> Forall wellMade (tasks (handle ev st)).
Proof.
  intros H. destruct ev; simpl; try exact H.
  - unfold addTask.
    destruct (jsstring_eqb (trim (newTask st)) []) eqn:E; [exact H|].
    simpl. apply Forall_app. split; [exact H|].
    constructor; [|constructor].
    apply jsstring_eqb_neq in E.
    repeat split; simpl; [exact E| |]; apply or_null_not_empty.
  - apply Forall_forall. intros t Ht. apply in_map_iff in Ht.
    destruct Ht as [t0 [<- Ht0]]. rewrite Forall_forall in H.
    specialize (H t0 Ht0).
    destruct (Task.id t0 =? id); [apply wellMade_with_completed|]; exact H.
  - apply Forall_forall. intros t Ht. apply filter_In in Ht.
    rewrite Forall_forall in H. apply H. tauto.
  - unfold updateTask.
    destruct (jsstring_eqb (trim (editTaskText st)) []) eqn:E; [exact H|].
    simpl. apply jsstring_eqb_neq in E.
    apply Forall_forall. intros t Ht. apply in_map_iff in Ht.
    destruct Ht as [t0 [<- Ht0]]. rewrite Forall_forall in H.
    specialize (H t0 Ht0).
    destruct (Task.id t0 =? id); [|exact H].
    repeat split; simpl; [exact E| |]; apply or_null_not_empty.
Qed.

(** X1. In every state the component reaches from its initial state, every
    task has a text that is not blank, and a due date and a due time that are
    [null] or a non-empty string. *)
Theorem reachable_tasks_wellMade (evs : list Event) :
  Forall wellMade (tasks (run evs initialState)).
Proof.
  assert (H : forall st, Forall wellMade (tasks st) ->
                         Forall wellMade (tasks (run evs st))).
  { induction evs as [|ev evs IH]; intros st Hst; simpl; [exact Hst|].
    apply IH. apply wellMade_handle. exact Hst. }
  apply H. constructor.
Qed.

(** ** Categories *)

Lemma categories_handle (ev : Event) (st : State) :
  (forall v, ev = SelectCategory v -> In v categories) ->
  In (selectedCategory st) categories ->
  Forall (fun t => In (Task.category t) categories) (tasks st) ->
  In (selectedCategory (handle ev st)) categories /\
  Forall (fun t => In (Task.category t) categories) (tasks (handle ev st)).
Proof.
  intros Hev Hsel H. destruct ev; simpl; try (split; assumption).
  - split; [|exact H]. apply Hev. reflexivity.
  - unfold addTask.
    destruct (jsstring_eqb (trim (newTask st)) []); [split; assumption|].
    simpl. split; [left; reflexivity|].
    apply Forall_app. split; [exact H|]. constructor; [exact Hsel|constructor].
  - split; [exact Hsel|].
    apply Forall_forall. intros t Ht. apply in_map_iff in Ht.
    destruct Ht as [t0 [<- Ht0]]. rewrite Forall_forall in H.
    specialize (H t0 Ht0). destruct (Task.id t0 =? id); exact H.
  - split; [exact Hsel|].
    apply Forall_forall. intros t Ht. apply filter_In in Ht.
    rewrite Forall_forall in H. apply H. tauto.
  - unfold updateTask.
    destruct (jsstring_eqb (trim (editTaskText st)) []); [split; assumption|].
    simpl. split; [exact Hsel|].
    apply Forall_forall. intros t Ht. apply in_map_iff in Ht.
    destruct Ht as [t0 [<- Ht0]]. rewrite Forall_forall in H.
    specialize (H t0 Ht0). destruct (Task.id t0 =? id); exact H.
Qed.

(** X2. When the category chosen in the form is always an option of the
    [<select>], every task of every state reached from the initial state has
    one of the six categories. *)
Theorem reachable_categories (evs : list Event) :
  selectsOptions evs ->
  Forall (fun t => In (Task.category t) categories)
         (tasks (run evs initialState)).
Proof.
  assert (H : forall st, selectsOptions evs ->
            In (selectedCategory st) categories ->
            Forall (fun t => In (Task.category t) categories) (tasks st) ->
            Forall (fun t => In (Task.category t) categories)
                   (tasks (run evs st))).
  { induction evs as [|ev evs IH]; intros st Hevs Hsel Hst; simpl;
      [exact Hst|].
    destruct (categories_handle ev st) as [Hsel' Hst']; try assumption.
    - intros v ->. cbn [selectsOptions] in Hevs. tauto.
    - apply IH; try assumption.
      destruct ev; cbn [selectsOptions] in Hevs; tauto. }
  intros Hevs. apply H; [exact Hevs|left; reflexivity|constructor].
Qed.

Lemma reachable_categories_witness :
  Forall (fun t => In (Task.category t) categories)
         (tasks (run [TypeNewTask (JS "Buy milk"); SelectCategory Shopping;
                      ClickAdd 1000; TypeNewTask (JS "Report");
                      ClickAdd 2000] initialState)).
Proof.
  apply reachable_categories. cbn [selectsOptions]. split; [|exact I].
  right. right. left. reflexivity.
Defined.

(** ** Badges *)

Lemma badgeCount_category (c : jsstring) (st : State) :
  c <> All -> badgeCount c st = countByCategory c (tasks st).
Proof.
  intros H. unfold badgeCount. apply jsstring_eqb_neq in H. rewrite H. simpl.
  apply length_filter_category.
Qed.

Lemma count_in_one_category (x : jsstring) :
  In x categories ->
  list_sum (map (fun c => if jsstring_dec x c then 1%nat else 0%nat)
              categories) = 1%nat.
Proof.
  unfold categories. simpl In.
  intros [H|[H|[H|[H|[H|[H|[]]]]]]]; subst x; reflexivity.
Qed.

Lemma list_sum_map_add {A} (f g : A -> nat) (l : list A) :
  list_sum (map (fun x => (f x + g x)%nat) l) =
  (list_sum (map f l) + list_sum (map g l))%nat.
Proof. induction l as [|x l IH]; simpl; [reflexivity|]. rewrite IH. lia. Qed.

Lemma sum_countByCategory (l : list Task.t) :
  Forall (fun t => In (Task.category t) categories) l ->
  list_sum (map (fun c => countByCategory c l) categories) = length l.
Proof.
  induction 1 as [|t l Ht Hl IH].
  - reflexivity.
  - transitivity
      (list_sum (map (fun c => ((if jsstring_dec (Task.category t) c
                                 then 1 else 0) + countByCategory c l)%nat)
                   categories)).
    + f_equal. apply map_ext. intros c. unfold countByCategory. simpl.
      destruct (jsstring_dec (Task.category t) c); reflexivity.
    + rewrite list_sum_map_add, IH, (count_in_one_category _ Ht).
      reflexivity.
Qed.

(** X3. When every task has one of the six categories, the numbers in the
    badges of the six category buttons add up to the number in the badge of
    the button All, the number of tasks. *)
Theorem badges_add_up (st : State) :
  Forall (fun t => In (Task.category t) categories) (tasks st) ->
  list_sum (map (fun c => badgeCount c st) categories) = badgeCount All st /\
  badgeCount All st = length (tasks st).
Proof.
  intros H. split; [|reflexivity].
  change (badgeCount All st) with (length (tasks st)).
  rewrite <- (sum_countByCategory (tasks st) H).
  f_equal. apply map_ext_in. intros c Hc.
  apply badgeCount_category. apply All_not_category. exact Hc.
Qed.

Lemma badges_add_up_witness :
  list_sum (map (fun c => badgeCount c errandsState) categories) =
  badgeCount All errandsState /\
  badgeCount All errandsState = length (tasks errandsState).
Proof.
  apply badges_add_up.
  repeat (apply Forall_cons; [vm_compute; tauto|]). apply Forall_nil.
Defined.

Lemma categories_toggleTask (id : Z) (st : State) :
  map Task.category (tasks (toggleTask id st)) = map Task.category (tasks st).
Proof.
  unfold toggleTask. simpl. rewrite map_map. apply map_ext.
  intros t. destruct (Task.id t =? id); reflexivity.
Qed.

Lemma categories_updateTask (id : Z) (st : State) :
  map Task.category (tasks (updateTask id st)) = map Task.category (tasks st).
Proof.
  unfold updateTask.
  destruct (jsstring_eqb (trim (editTaskText st)) []); [reflexivity|].
  simpl. rewrite map_map. apply map_ext.
  intros t. destruct (Task.id t =? id); reflexivity.
Qed.

Lemma badgeCount_categories (c : jsstring) (st st' : State) :
  map Task.category (tasks st') = map Task.category (tasks st) ->
  badgeCount c st' = badgeCount c st.
Proof.
  intros H. unfold badgeCount.
  assert (Hlen : length (tasks st') = length (tasks st)).
  { rewrite <- (length_map Task.category (tasks st')), H. apply length_map. }
  destruct (negb (jsstring_eqb c All)); [|exact Hlen].
  rewrite !length_filter_category. unfold countByCategory. rewrite H.
  reflexivity.
Qed.

(** X4. Completing a task and editing a task never move it to another
    category: the categories of the list, position by position, and so the
    number in every badge, are what they were. *)
Theorem toggle_and_update_keep_categories (id : Z) (st : State) :
  map Task.category (tasks (toggleTask id st)) = map Task.category (tasks st)
  /\ map Task.category (tasks (updateTask id st)) =
     map Task.category (tasks st)
  /\ forall c, badgeCount c (toggleTask id st) = badgeCount c st /\
               badgeCount c (updateTask id st) = badgeCount c st.
Proof.
  split; [apply categories_toggleTask|].
  split; [apply categories_updateTask|].
  intros c. split; apply badgeCount_categories.
  - apply categories_toggleTask.
  - apply categories_updateTask.
Qed.

(** ** The footer *)

Lemma filter_app_length {A} (f : A -> bool) (l l' : list A) :
  length (filter f (l ++ l')) =
  (length (filter f l) + length (filter f l'))%nat.
Proof. rewrite filter_app. apply length_app. Qed.

(** X5. A task that [addTask] accepts counts as remaining: both numbers of
    the footer, the remaining tasks and the tasks, grow by one.  A text that
    is blank changes neither. *)
Theorem addTask_counts (now : Z) (st : State) :
  (trim (newTask st) <> [] ->
   remainingCount (addTask now st) = S (remainingCount st) /\
   length (tasks (addTask now st)) = S (length (tasks st))) /\
  (trim (newTask st) = [] ->
   remainingCount (addTask now st) = remainingCount st /\
   length (tasks (addTask now st)) = length (tasks st)).
Proof.
  split.
  - intros H. unfold remainingCount.
    rewrite (tasks_addTask_accepted now st H).
    rewrite filter_app_length, length_app. simpl. lia.
  - intros H. rewrite (tasks_addTask_rejected now st H). split; reflexivity.
Qed.

Lemma addTask_counts_witness :
  (remainingCount (addTask 1000 milkForm) = S (remainingCount milkForm) /\
   length (tasks (addTask 1000 milkForm)) = S (length (tasks milkForm))) /\
  (remainingCount (addTask 1000 blankForm) = remainingCount blankForm /\
   length (tasks (addTask 1000 blankForm)) = length (tasks blankForm)).
Proof.
  split.
  - apply (proj1 (addTask_counts 1000 milkForm)). vm_compute. discriminate.
  - apply (proj2 (addTask_counts 1000 blankForm)). reflexivity.
Defined.

Lemma NoDup_map_inj_on {A B} (f : A -> B) (l : list A) (a b : A) :
  NoDup (map f l) -> In a l -> In b l -> f a = f b -> a = b.
Proof.
  induction l as [|x l IH]; simpl; intros Hnd Ha Hb E; [contradiction|].
  inversion Hnd as [|y m Hx Hl]; subst.
  destruct Ha as [->|Ha], Hb as [->|Hb].
  - reflexivity.
  - exfalso. apply Hx. rewrite E. apply in_map. exact Hb.
  - exfalso. apply Hx. rewrite <- E. apply in_map. exact Ha.
  - apply IH; assumption.
Qed.

(** With distinct identifiers, the tasks that do not complete [task]'s
    identifier are the other tasks. *)
Lemma remaining_split (id : Z) (l : list Task.t) (task : Task.t) :
  NoDup (map Task.id l) -> In task l -> Task.id task = id ->
  (length (filter (fun t => negb (Task.completed t))
             (map (fun t => if Z.eqb (Task.id t) id
                            then Task.with_completed
                                   (negb (Task.completed t)) t
                            else t) l)) +
   (if Task.completed task then 0 else 1) =
   length (filter (fun t => negb (Task.completed t)) l) +
   (if Task.completed task then 1 else 0))%nat.
Proof.
  intros Hnd Hin Hid. induction l as [|x l IH]; [contradiction|].
  simpl in Hnd. inversion Hnd as [|y m Hx Hl]; subst.
  destruct Hin as [->|Hin].
  - simpl. rewrite Z.eqb_refl. simpl.
    rewrite map_id_on.
    + destruct (Task.completed task); simpl; lia.
    + intros t Ht. destruct (Z.eqb_spec (Task.id t) (Task.id task)) as [E|E];
        [|reflexivity].
      exfalso. apply Hx. rewrite <- E. apply in_map. exact Ht.
  - assert (E : (Task.id x =? Task.id task) = false).
    { apply Z.eqb_neq. intros E. apply Hx. rewrite E. apply in_map.
      exact Hin. }
    simpl. rewrite E. specialize (IH Hl Hin).
    destruct (Task.completed x); simpl; lia.
Qed.

(** X6. When the identifiers are distinct, toggling a task changes the
    number of remaining tasks by exactly one: one less when the task was not
    completed, one more when it was. *)
Theorem toggleTask_remainingCount (st : State) (task : Task.t) :
  NoDup (ids st) -> In task (tasks st) ->
  (Task.completed task = false ->
   S (remainingCount (toggleTask (Task.id task) st)) = remainingCount st) /\
  (Task.completed task = true ->
   remainingCount (toggleTask (Task.id task) st) = S (remainingCount st)).
Proof.
  intros Hnd Hin.
  pose proof (remaining_split (Task.id task) (tasks st) task Hnd Hin eq_refl)
    as H.
  unfold remainingCount, toggleTask. simpl.
  split; intros E; rewrite E in H; lia.
Qed.

Lemma toggleTask_remainingCount_witness :
  S (remainingCount (toggleTask 1000 sampleState)) =
  remainingCount sampleState /\
  remainingCount (toggleTask 2000 sampleState) =
  S (remainingCount sampleState).
Proof.
  assert (Hnd : NoDup (ids sampleState)).
  { vm_compute. repeat constructor; simpl; intuition discriminate. }
  split.
  - refine (proj1 (toggleTask_remainingCount sampleState
                     (Task.mk 1000 (JS "Buy milk") false Shopping None None)
                     Hnd _) _); [left; reflexivity|reflexivity].
  - refine (proj2 (toggleTask_remainingCount sampleState
                     (Task.mk 2000 (JS "Report") true Work
                        (Some (JS "2025-12-01")) (Some (JS "09:00")))
                     Hnd _) _); [right; left; reflexivity|reflexivity].
Defined.

(** ** The edit form *)

(** Tasks picked from a list with distinct identifiers have distinct
    identifiers. *)
Lemma NoDup_ids_filter (keep : Task.t -> bool) (l : list Task.t) :
  NoDup (map Task.id l) -> NoDup (map Task.id (filter keep l)).
Proof.
  intros Hnd. induction l as [|task l IH]; simpl; [constructor|].
  inversion Hnd as [|i m Hfresh Hl]; subst.
  destruct (keep task); simpl; [|apply IH; exact Hl].
  constructor; [|apply IH; exact Hl].
  intros Hin. apply Hfresh. apply in_map_iff in Hin.
  destruct Hin as [other [E Hother]]. apply filter_In in Hother.
  rewrite <- E. apply in_map. tauto.
Qed.

Lemma filter_none {A} (f : A -> bool) (l : list A) :
  (forall x, In x l -> f x = false) -> filter f l = [].
Proof.
  induction l as [|x l IH]; simpl; intros H; [reflexivity|].
  rewrite H by (left; reflexivity). apply IH.
  intros y Hy. apply H. right. exact Hy.
Qed.

Lemma at_most_one_with_id (id : Z) (l : list Task.t) :
  NoDup (map Task.id l) ->
  (length (filter (fun t => Z.eqb id (Task.id t)) l) <= 1)%nat.
Proof.
  induction l as [|x l IH]; simpl; intros H; [lia|].
  inversion H as [|y m Hx Hl]; subst.
  destruct (Z.eqb_spec id (Task.id x)) as [E|E]; [|apply IH; exact Hl].
  simpl. rewrite filter_none; [simpl; lia|].
  intros t Ht. apply Z.eqb_neq. intros E'. apply Hx.
  rewrite <- E, E'. apply in_map. exact Ht.
Qed.

Lemma NoDup_ids_getFilteredTasks (st : State) :
  NoDup (ids st) -> NoDup (map Task.id (getFilteredTasks st)).
Proof.
  intros H. unfold getFilteredTasks.
  destruct (jsstring_eqb (activeFilter st) All); [exact H|].
  apply NoDup_ids_filter. exact H.
Qed.

(** X7. When the identifiers are distinct, at most one row of the list shows
    the edit form, under every filter. *)
Theorem at_most_one_edit_row (st : State) :
  NoDup (ids st) -> (length (editRows st) <= 1)%nat.
Proof.
  intros H. unfold editRows, isEditing.
  destruct (editingTaskId st) as [id|].
  - apply at_most_one_with_id. apply NoDup_ids_getFilteredTasks. exact H.
  - rewrite filter_none; [simpl; lia|]. reflexivity.
Qed.

Lemma at_most_one_edit_row_witness : (length (editRows sampleState) <= 1)%nat.
Proof.
  apply at_most_one_edit_row.
  vm_compute. repeat constructor; simpl; intuition discriminate.
Defined.

(** ** How the handlers compose *)

Lemma newTask_addTask (now : Z) (st : State) :
  trim (newTask (addTask now st)) = [].
Proof.
  unfold addTask.
  destruct (jsstring_eqb (trim (newTask st)) []) eqn:E.
  - apply jsstring_eqb_eq. exact E.
  - reflexivity.
Qed.

Lemma editTaskText_updateTask (id : Z) (st : State) :
  trim (editTaskText (updateTask id st)) = [].
Proof.
  unfold updateTask.
  destruct (jsstring_eqb (trim (editTaskText st)) []) eqn:E.
  - apply jsstring_eqb_eq. exact E.
  - reflexivity.
Qed.

(** X8. A second submission right after the first one does nothing: after
    [addTask] the text field is blank, so a second [addTask] adds no task,
    and after [updateTask] the edit field is blank, so a second [updateTask]
    changes no task, whatever the clock and the identifiers are. *)
Theorem submit_twice (now now' id id' : Z) (st : State) :
  addTask now' (addTask now st) = addTask now st /\
  updateTask id' (updateTask id st) = updateTask id st.
Proof.
  split.
  - apply tasks_addTask_rejected. apply newTask_addTask.
  - unfold updateTask at 1. rewrite editTaskText_updateTask. reflexivity.
Qed.

Lemma filter_map_commute {A} (f : A -> A) (p : A -> bool) (l : list A) :
  (forall x, p (f x) = p x) -> filter p (map f l) = map f (filter p l).
Proof.
  intros H. induction l as [|x l IH]; simpl; [reflexivity|].
  rewrite H. destruct (p x); simpl; rewrite IH; reflexivity.
Qed.

(** X9. Completing and deleting tasks can be done in any order: two
    [toggleTask], two [deleteTask], or a [toggleTask] and a [deleteTask],
    with any identifiers, give the same state in either order. *)
Theorem toggle_delete_commute (a b : Z) (st : State) :
  toggleTask a (toggleTask b st) = toggleTask b (toggleTask a st) /\
  deleteTask a (deleteTask b st) = deleteTask b (deleteTask a st) /\
  deleteTask a (toggleTask b st) = toggleTask b (deleteTask a st).
Proof.
  split; [|split].
  - unfold toggleTask, setTasks. simpl. f_equal. rewrite !map_map.
    apply map_ext.
    intros t.
    destruct (Task.id t =? a) eqn:Ea, (Task.id t =? b) eqn:Eb; simpl;
      rewrite ?Ea, ?Eb; simpl; rewrite ?Ea, ?Eb; reflexivity.
  - unfold deleteTask, setTasks. simpl. f_equal.
    induction (tasks st) as [|t l IH]; simpl; [reflexivity|].
    destruct (Task.id t =? a) eqn:Ea, (Task.id t =? b) eqn:Eb; simpl;
      rewrite ?Ea, ?Eb; simpl; rewrite ?IH; reflexivity.
  - unfold deleteTask, toggleTask, setTasks. simpl. f_equal.
    apply filter_map_commute.
    intros t. destruct (Task.id t =? b); reflexivity.
Qed.

(** ** Editing *)

Lemma or_null_or_empty (v : option jsstring) :
  v <> Some [] -> or_null (or_empty v) = v.
Proof.
  destruct v as [[|c s]|]; simpl; intros H; try reflexivity.
  exfalso. apply H. reflexivity.
Qed.

(** X10. Opening the edit form on a task and saving it as it is changes no
    task: [startEditTask] with the text, due date and due time of a task and
    [updateTask] with its identifier leave the list as it was, and close the
    form.  The task is as the handlers make them, and the identifiers are
    distinct. *)
Theorem edit_unchanged (st : State) (task : Task.t) :
  NoDup (ids st) -> In task (tasks st) -> wellMade task ->
  tasks (updateTask (Task.id task)
           (startEditTask (Task.id task) (Task.text task)
              (Task.dueDate task) (Task.dueTime task) st)) = tasks st /\
  editingTaskId (updateTask (Task.id task)
                   (startEditTask (Task.id task) (Task.text task)
                      (Task.dueDate task) (Task.dueTime task) st)) = None.
Proof.
  intros Hnd Hin [Htext [Hdate Htime]].
  unfold updateTask. cbn [startEditTask editTaskText setEditDueTime
    setEditDueDate setEditTaskText setEditingTaskId].
  apply jsstring_eqb_neq in Htext. rewrite Htext.
  split; [|reflexivity].
  cbn. apply map_id_on. intros t Ht.
  destruct (Z.eqb_spec (Task.id t) (Task.id task)) as [E|E]; [|reflexivity].
  assert (t = task)
    by (apply (NoDup_map_inj_on Task.id (tasks st)); assumption).
  subst t. unfold Task.with_edit.
  rewrite (or_null_or_empty _ Hdate), (or_null_or_empty _ Htime).
  destruct task; reflexivity.
Qed.

Lemma edit_unchanged_witness :
  tasks (updateTask 2000
           (startEditTask 2000 (JS "Report") (Some (JS "2025-12-01"))
              (Some (JS "09:00")) sampleState)) = tasks sampleState /\
  editingTaskId (updateTask 2000
                   (startEditTask 2000 (JS "Report")
                      (Some (JS "2025-12-01")) (Some (JS "09:00"))
                      sampleState)) = None.
Proof.
  apply (edit_unchanged sampleState
           (Task.mk 2000 (JS "Report") true Work (Some (JS "2025-12-01"))
              (Some (JS "09:00")))).
  - vm_compute. repeat constructor; simpl; intuition discriminate.
  - right. left. reflexivity.
  - repeat split; vm_compute; discriminate.
Defined.

(** ** The order of the list *)

Lemma Subsequence_refl {A} (l : list A) : Subsequence l l.
Proof. induction l; constructor; assumption. Qed.

Lemma Subsequence_filter {A} (f : A -> bool) (l : list A) :
  Subsequence (filter f l) l.
Proof.
  induction l as [|x l IH]; simpl; [constructor|].
  destruct (f x); constructor; exact IH.
Qed.

Lemma Subsequence_app {A} (l1' l1 l2' l2 : list A) :
  Subsequence l1' l1 -> Subsequence l2' l2 ->
  Subsequence (l1' ++ l2') (l1 ++ l2).
Proof.
  intros H1 H2. induction H1; simpl; [exact H2| |]; constructor; assumption.
Qed.

Lemma Subsequence_trans {A} (l1 l2 l3 : list A) :
  Subsequence l1 l2 -> Subsequence l2 l3 -> Subsequence l1 l3.
Proof.
  intros H12 H23. revert l1 H12.
  induction H23 as [|x l2 l3 H IH|x l2 l3 H IH]; intros l1 H12.
  - exact H12.
  - inversion H12; subst.
    + constructor. apply IH. assumption.
    + apply Subsequence_skip. apply IH. assumption.
  - apply Subsequence_skip. apply IH. exact H12.
Qed.

Lemma Subsequence_In {A} (l' l : list A) (x : A) :
  Subsequence l' l -> In x l' -> In x l.
Proof.
  induction 1; simpl; intros Hx; [exact Hx| |].
  - destruct Hx as [Hx|Hx]; [left; exact Hx|right; auto].
  - right. auto.
Qed.

Lemma Subsequence_length {A} (l' l : list A) :
  Subsequence l' l -> (length l' <= length l)%nat.
Proof. induction 1; simpl; lia. Qed.

Lemma Subsequence_StronglySorted {A} (R : A -> A -> Prop) (l' l : list A) :
  Subsequence l' l -> StronglySorted R l -> StronglySorted R l'.
Proof.
  induction 1 as [|x l' l H IH|x l' l H IH]; intros Hs.
  - constructor.
  - inversion Hs as [|y m Hm Hx]; subst. constructor; [apply IH; exact Hm|].
    rewrite Forall_forall in Hx |- *. intros z Hz. apply Hx.
    apply (Subsequence_In l' l z H Hz).
  - inversion Hs; subst. apply IH. assumption.
Qed.

(** One event: the identifiers after it, followed by the clock readings of
    the additions to come, are among the identifiers before it followed by
    the clock readings of this event and of the additions to come. *)
Lemma Subsequence_ids_handle (ev : Event) (evs : list Event) (st : State) :
  Subsequence (ids (handle ev st) ++ clockReadings evs)
              (ids st ++ clockReadings (ev :: evs)).
Proof.
  destruct ev; simpl; try apply Subsequence_refl.
  - destruct (ids_addTask now st) as [E|E]; rewrite E.
    + apply Subsequence_app; [apply Subsequence_refl|].
      apply Subsequence_skip. apply Subsequence_refl.
    + rewrite <- app_assoc. apply Subsequence_refl.
  - rewrite ids_toggleTask. apply Subsequence_refl.
  - rewrite ids_deleteTask.
    apply Subsequence_app; [apply Subsequence_filter|apply Subsequence_refl].
  - rewrite ids_updateTask. apply Subsequence_refl.
Qed.

Lemma Subsequence_ids_run (evs : list Event) (st : State) :
  Subsequence (ids (run evs st)) (ids st ++ clockReadings evs).
Proof.
  revert st. induction evs as [|ev evs IH]; intros st.
  - simpl. rewrite app_nil_r. apply Subsequence_refl.
  - simpl run. apply (Subsequence_trans _ _ _ (IH (handle ev st))).
    apply Subsequence_ids_handle.
Qed.

(** X11. No sequence of events reorders the list: the identifiers after it
    are, in order, some of the identifiers before it followed by some of the
    clock readings of its additions; the tasks that stay keep their relative
    order, the new ones come after them, and the list grows by at most one
    task per addition. *)
Theorem run_keeps_order (evs : list Event) (st : State) :
  Subsequence (ids (run evs st)) (ids st ++ clockReadings evs) /\
  (length (tasks (run evs st)) <=
   length (tasks st) + length (clockReadings evs))%nat.
Proof.
  pose proof (Subsequence_ids_run evs st) as H.
  split; [exact H|].
  apply Subsequence_length in H.
  unfold ids in H. rewrite length_app, !length_map in H. exact H.
Qed.

(** X12. When each addition reads a clock value above the identifiers in
    use and above the earlier readings, the identifiers of the list increase
    strictly from the first task to the last: they are pairwise distinct, and
    the list is in the order of creation. *)
Theorem increasing_clock_increasing_ids (evs : list Event) (st : State) :
  StronglySorted Z.lt (ids st ++ clockReadings evs) ->
  StronglySorted Z.lt (ids (run evs st)) /\ NoDup (ids (run evs st)).
Proof.
  intros H.
  assert (Hs : StronglySorted Z.lt (ids (run evs st))).
  { apply (Subsequence_StronglySorted _ _ _ (Subsequence_ids_run evs st) H). }
  split; [exact Hs|].
  induction Hs as [|x l Hl IH Hx]; constructor; [|exact IH].
  intros Hin. rewrite Forall_forall in Hx. specialize (Hx x Hin). lia.
Qed.

Lemma increasing_clock_increasing_ids_witness :
  StronglySorted Z.lt
    (ids (run [TypeNewTask (JS "a"); ClickAdd 4000; Toggle 1000;
               TypeNewTask (JS "b"); ClickAdd 5000; Delete 2000]
            sampleState)) /\
  NoDup
    (ids (run [TypeNewTask (JS "a"); ClickAdd 4000; Toggle 1000;
               TypeNewTask (JS "b"); ClickAdd 5000; Delete 2000]
            sampleState)).
Proof.
  apply increasing_clock_increasing_ids.
  vm_compute. repeat constructor.
Defined.

(** ** The hooks on the first render and after it *)

(** X13. The first render never writes to the storage: whatever is stored,
    the two hooks complete without throwing, the storage is as it was, the
    console and the task list are as the load hook left them, and the ref
    [isFirstRender] is lowered. *)
Theorem first_render_never_writes (storage : Storage) :
  exists c v,
    loadEffect (mountEnv storage) = Normal tt (mkEnv storage c true v) /\
    mount (mountEnv storage) = Normal tt (mkEnv storage c false v).
Proof.
  destruct (loadEffect_shape storage) as [c [v H]].
  exists c, v. split; [exact H|].
  unfold mount, bind. rewrite H. reflexivity.
Qed.

(** X14. A refused write loses the new list and keeps the stored one.
    After the first render, let the save hook store a list of tasks, and
    let the tasks change.  When the storage refuses the next write, the save
    hook throws the [QuotaExceededError] of [setItem], which nothing
    catches; the storage and the console are as they were; and a component
    mounted on the storage holds the list that was stored, not the new
    one. *)
Theorem refused_write_keeps_last_save (env : Env) (l l' : list Task.t) :
  isFirstRender env = false ->
  tasksCell env = tasksArray l ->
  Forall (fun task => safeInteger (Task.id task)) l ->
  writable (localStorage env) tasksKey (JSON_stringify (tasksArray l))
  = true ->
  writable (stored tasksKey (JSON_stringify (tasksArray l))
              (localStorage env))
    tasksKey (JSON_stringify (tasksArray l')) = false ->
  exists env1 env2,
    saveEffect env = Normal tt env1 /\
    (setTasksCell (tasksArray l') ;;; saveEffect) env1 =
    Throw QuotaExceededError env2 /\
    localStorage env2 = localStorage env1 /\
    console env2 = console env /\
    tasksCell env2 = tasksArray l' /\
    mount (mountEnv (localStorage env2)) =
    Normal tt (mkEnv (localStorage env2) [] false (tasksArray l)).
Proof.
  intros Hfirst Hcell Hids Hroom Hfull.
  rewrite <- Hcell in Hroom.
  eexists. eexists.
  split; [apply (saveEffect_accepted env Hfirst Hroom)|].
  split; [|split; [|split; [|split]]].
  - unfold bind, setTasksCell. apply saveEffect_refused.
    + reflexivity.
    + cbn [localStorage tasksCell]. rewrite Hcell. exact Hfull.
  - reflexivity.
  - reflexivity.
  - reflexivity.
  - cbn [localStorage]. rewrite Hcell.
    apply mount_stored. apply collection_wellFormed.
    apply tasksArray_collection. exact Hids.
Qed.

Lemma refused_write_keeps_last_save_witness :
  exists env1 env2,
    saveEffect
      (mkEnv (mkStorage (fun _ => None) (roomFor 150)) [] false
         (tasksArray milkTasks)) = Normal tt env1 /\
    (setTasksCell (tasksArray sampleTasks) ;;; saveEffect) env1 =
    Throw QuotaExceededError env2 /\
    localStorage env2 = localStorage env1 /\
    console env2 = [] /\
    tasksCell env2 = tasksArray sampleTasks /\
    mount (mountEnv (localStorage env2)) =
    Normal tt (mkEnv (localStorage env2) [] false (tasksArray milkTasks)).
Proof.
  apply (refused_write_keeps_last_save
           (mkEnv (mkStorage (fun _ => None) (roomFor 150)) [] false
              (tasksArray milkTasks)) milkTasks sampleTasks).
  - reflexivity.
  - reflexivity.
  - repeat constructor. vm_compute. discriminate.
  - reflexivity.
  - reflexivity.
Defined.

(** X15. Whatever the user did, a reload restores the list.  Take the task
    list of any state the handlers reach from the initial state, with clock
    readings that are safe integers, as every value of [Date.now()] is.
    When the storage accepts the write, the save hook stores the list, and a
    component that mounts on that storage holds the same list, with nothing
    reported on the console. *)
Theorem reachable_tasks_reload (evs : list Event) (env : Env) :
  Forall safeInteger (clockReadings evs) ->
  isFirstRender env = false ->
  tasksCell env = tasksArray (tasks (run evs initialState)) ->
  writable (localStorage env) tasksKey (JSON_stringify (tasksCell env))
  = true ->
  exists env1,
    saveEffect env = Normal tt env1 /\
    mount (mountEnv (localStorage env1)) =
    Normal tt
      (mkEnv (localStorage env1) [] false
         (tasksArray (tasks (run evs initialState)))).
Proof.
  intros Hsafe Hfirst Hcell Hroom.
  assert (Hcoll : collection (tasksCell env)).
  { rewrite Hcell. apply tasksArray_collection.
    apply Forall_forall. intros task Htask.
    rewrite Forall_forall in Hsafe. apply Hsafe.
    destruct (In_ids_run evs initialState (Task.id task)) as [H|H].
    - unfold ids. apply in_map. exact Htask.
    - destruct H.
    - exact H. }
  eexists. split; [apply (saveEffect_accepted env Hfirst Hroom)|].
  cbn [localStorage]. rewrite <- Hcell.
  apply mount_stored. apply collection_wellFormed. exact Hcoll.
Qed.

Lemma reachable_tasks_reload_witness :
  exists env1,
    saveEffect
      (mkEnv emptyStorage [] false
         (tasksArray
            (tasks (run [TypeNewTask (JS "Buy milk"); ClickAdd 1000;
                         Toggle 1000] initialState)))) = Normal tt env1 /\
    mount (mountEnv (localStorage env1)) =
    Normal tt
      (mkEnv (localStorage env1) [] false
         (tasksArray
            (tasks (run [TypeNewTask (JS "Buy milk"); ClickAdd 1000;
                         Toggle 1000] initialState)))).
Proof.
  apply (reachable_tasks_reload
           [TypeNewTask (JS "Buy milk"); ClickAdd 1000; Toggle 1000]
           (mkEnv emptyStorage [] false
              (tasksArray
                 (tasks (run [TypeNewTask (JS "Buy milk"); ClickAdd 1000;
                              Toggle 1000] initialState))))).
  - repeat constructor. vm_compute. discriminate.
  - reflexivity.
  - reflexivity.
  - reflexivity.
Defined.

(** ** The message of the empty list *)

Lemma noTasksYet_noTasksIn (f : jsstring) : noTasksYet <> noTasksIn f.
Proof. unfold noTasksIn. vm_compute. discriminate. Qed.

Lemma getFilteredTasks_nil (st : State) :
  tasks st = [] -> getFilteredTasks st = [].
Proof.
  intros H. unfold getFilteredTasks. rewrite H.
  destruct (jsstring_eqb (activeFilter st) All); reflexivity.
Qed.

Lemma In_getFilteredTasks (st : State) (task : Task.t) :
  In task (getFilteredTasks st) <->
  In task (tasks st) /\
  (activeFilter st = All \/ Task.category task = activeFilter st).
Proof.
  unfold getFilteredTasks.
  destruct (jsstring_eqb (activeFilter st) All) eqn:E.
  - apply jsstring_eqb_eq in E. tauto.
  - apply jsstring_eqb_neq in E. rewrite filter_In, jsstring_eqb_eq. tauto.
Qed.

(** X16. The message of the empty list.  No message is shown exactly when
    some task passes the active filter; the message is that there is no task
    yet exactly when the list is empty; and the message that names the
    category is shown only under a category filter, with a list that is not
    empty: the component never says that there is no task in the category
    All. *)
Theorem emptyMessage_cases (st : State) :
  (emptyMessage st = None <->
   exists task,
     In task (tasks st) /\
     (activeFilter st = All \/ Task.category task = activeFilter st)) /\
  (emptyMessage st = Some noTasksYet <-> tasks st = []) /\
  (emptyMessage st = Some (noTasksIn (activeFilter st)) <->
   tasks st <> [] /\ getFilteredTasks st = []) /\
  (emptyMessage st = Some (noTasksIn (activeFilter st)) ->
   activeFilter st <> All).
Proof.
  unfold emptyMessage.
  destruct (getFilteredTasks st) as [|x l] eqn:E.
  - destruct (tasks st) as [|y m] eqn:Et.
    + split; [|split; [|split]].
      * split; [discriminate|]. intros [task [[] _]].
      * tauto.
      * split; [|intros [H _]; congruence].
        intros H. destruct (noTasksYet_noTasksIn (activeFilter st)).
        congruence.
      * intros H. destruct (noTasksYet_noTasksIn (activeFilter st)).
        congruence.
    + split; [|split; [|split]].
      * split; [discriminate|]. intros [task Htask].
        rewrite <- Et in Htask. apply In_getFilteredTasks in Htask.
        rewrite E in Htask. destruct Htask.
      * split; [|discriminate]. intros H.
        destruct (noTasksYet_noTasksIn (activeFilter st)). congruence.
      * split; [intros _; split; [discriminate|reflexivity]|reflexivity].
      * intros _ HAll. unfold getFilteredTasks in E. rewrite Et in E.
        apply jsstring_eqb_eq in HAll. rewrite HAll in E. discriminate.
  - assert (Hx : In x (getFilteredTasks st)) by (rewrite E; left; reflexivity).
    split; [|split; [|split]].
    + split; [|reflexivity]. intros _. exists x.
      apply In_getFilteredTasks. exact Hx.
    + split; [discriminate|]. intros Ht.
      rewrite (getFilteredTasks_nil st Ht) in E. discriminate.
    + split; [discriminate|]. intros [_ H]. discriminate.
    + discriminate.
Qed.

(** ** [TodoItem]: the colours of the category badge *)

Lemma ownProperty_None (k : jsstring) (o : list (jsstring * jsstring)) :
  ~ In k (map fst o) -> TodoItem.ownProperty k o = None.
Proof.
  induction o as [|[k' v] o IH]; simpl; intros H; [reflexivity|].
  destruct (jsstring_eqb k' k) eqn:E.
  - apply jsstring_eqb_eq in E. tauto.
  - apply IH. tauto.
Qed.

Lemma existsb_jsstring_eqb (k : jsstring) (l : list jsstring) :
  existsb (jsstring_eqb k) l = true <-> In k l.
Proof.
  rewrite existsb_exists. split.
  - intros [x [Hx E]]. apply jsstring_eqb_eq in E. subst x. exact Hx.
  - intros H. exists k. split; [exact H|apply jsstring_eqb_refl].
Qed.

(** X17. The colours of the six categories.  Each category of the form has
    a colour of its own in [getCategoryColor], a string that is not empty,
    and no two categories share one.  The text on it is black for the yellow
    of Finance and white for the five others. *)
Theorem getCategoryColor_categories (c c' : jsstring) :
  In c categories -> In c' categories ->
  (exists colour,
     TodoItem.getCategoryColor c = TodoItem.Str colour /\ colour <> []) /\
  (TodoItem.getCategoryColor c = TodoItem.getCategoryColor c' -> c = c') /\
  (TodoItem.getTextColor c = JS "#000" <->
   TodoItem.getCategoryColor c = TodoItem.Str TodoItem.yellow) /\
  (TodoItem.getTextColor c = JS "#fff" <->
   TodoItem.getCategoryColor c <> TodoItem.Str TodoItem.yellow).
Proof.
  unfold categories. simpl.
  intros [H|[H|[H|[H|[H|[H|[]]]]]]] [H'|[H'|[H'|[H'|[H'|[H'|[]]]]]]];
    subst c c'; vm_compute;
    (split; [eexists; split; [reflexivity|discriminate]|]);
    (split; [first [reflexivity|discriminate]|]);
    split; split; first [reflexivity|discriminate|congruence].
Qed.

Lemma getCategoryColor_categories_witness :
  (exists colour,
     TodoItem.getCategoryColor Finance = TodoItem.Str colour /\
     colour <> []) /\
  (TodoItem.getCategoryColor Finance = TodoItem.getCategoryColor Work ->
   Finance = Work) /\
  (TodoItem.getTextColor Finance = JS "#000" <->
   TodoItem.getCategoryColor Finance = TodoItem.Str TodoItem.yellow) /\
  (TodoItem.getTextColor Finance = JS "#fff" <->
   TodoItem.getCategoryColor Finance <> TodoItem.Str TodoItem.yellow).
Proof.
  apply (getCategoryColor_categories Finance Work); vm_compute; tauto.
Defined.

(** X18. A category that is not one of the six, as a stored task can have.
    When it is the name of a property of [Object.prototype], such as
    [constructor] or [toString], [getCategoryColor] returns what the object
    [colors] inherits under that name, which is not a colour string; for
    every other category it returns the gray of Other, and the text on it is
    white. *)
Theorem getCategoryColor_unknown (c : jsstring) :
  ~ In c categories ->
  (In c TodoItem.objectPrototypeNames ->
   TodoItem.getCategoryColor c = TodoItem.Inherited c) /\
  (~ In c TodoItem.objectPrototypeNames ->
   TodoItem.getCategoryColor c = TodoItem.Str TodoItem.gray /\
   TodoItem.getCategoryColor c = TodoItem.getCategoryColor Other) /\
  TodoItem.getTextColor c = JS "#fff".
Proof.
  intros Hc. unfold TodoItem.getCategoryColor.
  rewrite (ownProperty_None c TodoItem.colors) by exact Hc.
  split; [|split].
  - intros H. apply existsb_jsstring_eqb in H. rewrite H. reflexivity.
  - intros H.
    destruct (existsb (jsstring_eqb c) TodoItem.objectPrototypeNames) eqn:E.
    + apply existsb_jsstring_eqb in E. tauto.
    + split; reflexivity.
  - unfold TodoItem.getTextColor.
    destruct (jsstring_eqb c Finance) eqn:E; [|reflexivity].
    apply jsstring_eqb_eq in E. subst c. exfalso. apply Hc.
    unfold categories. simpl. tauto.
Qed.

Lemma getCategoryColor_unknown_witness :
  (In (JS "constructor") TodoItem.objectPrototypeNames ->
   TodoItem.getCategoryColor (JS "constructor") =
   TodoItem.Inherited (JS "constructor")) /\
  (~ In (JS "constructor") TodoItem.objectPrototypeNames ->
   TodoItem.getCategoryColor (JS "constructor") =
   TodoItem.Str TodoItem.gray /\
   TodoItem.getCategoryColor (JS "constructor") =
   TodoItem.getCategoryColor Other) /\
  TodoItem.getTextColor (JS "constructor") = JS "#fff".
Proof.
  apply (getCategoryColor_unknown (JS "constructor")).
  vm_compute. intros [H|[H|[H|[H|[H|[H|[]]]]]]]; discriminate.
Defined.

(** ** [TodoItem]: the time of day *)

Lemma split_no_separator (sep : code_unit) (s : jsstring) :
  ~ In sep s -> TodoItem.split sep s = [s].
Proof.
  induction s as [|c s IH]; simpl; intros H; [reflexivity|].
  destruct (N.eqb c sep) eqn:E.
  - apply N.eqb_eq in E. tauto.
  - rewrite IH by tauto. reflexivity.
Qed.

Lemma split_at_separator (sep : code_unit) (a b : jsstring) :
  ~ In sep a ->
  TodoItem.split sep (a ++ sep :: b) = a :: TodoItem.split sep b.
Proof.
  induction a as [|c a IH]; simpl; intros H.
  - rewrite N.eqb_refl. reflexivity.
  - destruct (N.eqb c sep) eqn:E.
    + apply N.eqb_eq in E. tauto.
    + rewrite IH by tauto. reflexivity.
Qed.

(** A property that holds of the hundred numbers below 100, by checking
    each. *)
Lemma below_100 (P : N -> bool) :
  forallb (fun n => P (N.of_nat n)) (seq 0 100) = true ->
  forall h, (h < 100)%N -> P h = true.
Proof.
  intros H h Hh. rewrite forallb_forall in H.
  specialize (H (N.to_nat h)). rewrite N2Nat.id in H.
  apply H. apply in_seq. lia.
Qed.

Lemma parseInt_two_digits (h : N) :
  (h < 100)%N ->
  TodoItem.parseInt [digitChar (h / 10); digitChar (h mod 10)] =
  Some (Z.of_N h).
Proof.
  intros Hh.
  pose proof (below_100
    (fun h =>
       match TodoItem.parseInt [digitChar (h / 10); digitChar (h mod 10)]
       with
       | Some z => Z.eqb z (Z.of_N h)
       | None => false
       end) eq_refl h Hh) as H.
  cbv beta in H.
  destruct (TodoItem.parseInt [digitChar (h / 10); digitChar (h mod 10)])
    as [z|]; [|discriminate].
  apply Z.eqb_eq in H. rewrite H. reflexivity.
Qed.

Lemma displayHour_hour12 (h : N) :
  TodoItem.displayHour (Some (Z.of_N h)) = Z.of_N (hour12 h).
Proof.
  unfold TodoItem.displayHour, hour12.
  rewrite Z.rem_mod_nonneg by lia.
  change 12 with (Z.of_N 12). rewrite <- N2Z.inj_mod.
  destruct (N.eqb_spec (h mod 12) 0) as [E|E].
  - rewrite E. reflexivity.
  - destruct (Z.eqb_spec (Z.of_N (h mod 12)) 0) as [E'|E']; [lia|reflexivity].
Qed.

Lemma integerString_hour (k : N) :
  (k < 100)%N ->
  TodoItem.integerString (Z.of_N k) = map digitChar (decimal k).
Proof.
  intros Hk. apply jsstring_eqb_eq.
  apply (below_100
    (fun k => jsstring_eqb (TodoItem.integerString (Z.of_N k))
                (map digitChar (decimal k))) eq_refl k Hk).
Qed.

Lemma period_hour (h : N) :
  TodoItem.period (Some (Z.of_N h)) =
  if (h <? 12)%N then JS "AM" else JS "PM".
Proof.
  unfold TodoItem.period.
  destruct (N.ltb_spec h 12); destruct (Z.geb_spec (Z.of_N h) 12);
    try reflexivity; lia.
Qed.

Lemma hour12_range (h : N) : (1 <= hour12 h <= 12)%N.
Proof.
  unfold hour12. pose proof (N.mod_lt h 12 ltac:(lia)) as H.
  remember (h mod 12)%N as r. destruct (N.eqb_spec r 0); lia.
Qed.

Lemma digitChar_not_colon (ds : list N) :
  Forall (fun d => d < 10)%N ds -> ~ In 58%N (map digitChar ds).
Proof.
  intros H Hin. apply in_map_iff in Hin. destruct Hin as [d [E Hd]].
  rewrite Forall_forall in H. specialize (H d Hd). unfold digitChar in E. lia.
Qed.

Lemma map_digitChar_inj (a b : list N) :
  map digitChar a = map digitChar b -> a = b.
Proof.
  revert b. induction a as [|x a IH]; intros [|y b]; simpl;
    try discriminate; [reflexivity|].
  intros H. injection H as Hx H. apply IH in H. unfold digitChar in Hx.
  f_equal; [lia|exact H].
Qed.

Lemma decimal_inj (a b : N) : decimal a = decimal b -> a = b.
Proof.
  intros H. rewrite <- (undecimal_decimal a), <- (undecimal_decimal b).
  rewrite H. reflexivity.
Qed.

(** The time of a time value with a two-digit hour. *)
Lemma formatTime_timeValue (h : N) (minutes : jsstring) :
  (h < 100)%N -> ~ In 58%N minutes ->
  TodoItem.formatTime (Some (timeValue h minutes)) =
  map digitChar (decimal (hour12 h)) ++ JS ":" ++ minutes ++
  (if (h <? 12)%N then JS " AM" else JS " PM").
Proof.
  intros Hh Hm.
  assert (Hsplit : TodoItem.split 58%N (timeValue h minutes) =
                   [[digitChar (h / 10); digitChar (h mod 10)]; minutes]).
  { unfold timeValue.
    change (JS ":" ++ minutes) with (58%N :: minutes).
    rewrite split_at_separator.
    - rewrite split_no_separator by exact Hm. reflexivity.
    - apply (digitChar_not_colon [h / 10; h mod 10])%N.
      repeat constructor.
      + apply N.Div0.div_lt_upper_bound. lia.
      + apply N.mod_lt. lia. }
  unfold TodoItem.formatTime.
  change (timeValue h minutes) with
    (digitChar (h / 10) :: digitChar (h mod 10) :: 58%N :: minutes) in *.
  cbv zeta. rewrite Hsplit.
  rewrite (parseInt_two_digits h Hh), displayHour_hour12, period_hour.
  rewrite integerString_hour
    by (pose proof (hour12_range h); lia).
  destruct (h <? 12)%N; reflexivity.
Qed.

(** X19. A time of day as the time field gives it, with the hour on two
    digits and minutes that hold no colon, is shown on the twelve-hour
    clock: the hour from 1 to 12 without leading zero, the minutes as they
    are, and AM before noon, PM from noon on. *)
Theorem formatTime_twelve_hour_clock (h : N) (minutes : jsstring) :
  (h < 24)%N -> ~ In 58%N minutes ->
  TodoItem.formatTime (Some (timeValue h minutes)) =
  map digitChar (decimal (hour12 h)) ++ JS ":" ++ minutes ++
  (if (h <? 12)%N then JS " AM" else JS " PM") /\
  (1 <= hour12 h <= 12)%N /\
  (h = hour12 h \/ h = 0 /\ hour12 h = 12 \/ h = hour12 h + 12)%N.
Proof.
  intros Hh Hm. split; [|split].
  - apply formatTime_timeValue; [lia|exact Hm].
  - apply hour12_range.
  - unfold hour12.
    destruct (N.ltb_spec h 12) as [H|H].
    + rewrite (N.mod_small h 12 H). destruct (N.eqb_spec h 0); lia.
    + assert (E : (h mod 12 = h - 12)%N).
      { symmetry. apply (N.mod_unique h 12 1 (h - 12)); lia. }
      rewrite E. destruct (N.eqb_spec (h - 12) 0); lia.
Qed.

Lemma formatTime_twelve_hour_clock_witness :
  TodoItem.formatTime (Some (timeValue 18 (JS "30"))) =
  map digitChar (decimal (hour12 18)) ++ JS ":" ++ JS "30" ++ JS " PM" /\
  (1 <= hour12 18 <= 12)%N /\
  (18 = hour12 18 \/ 18 = 0 /\ hour12 18 = 12 \/ 18 = hour12 18 + 12)%N.
Proof.
  apply (formatTime_twelve_hour_clock 18 (JS "30")).
  - reflexivity.
  - vm_compute. intros [H|[H|[]]]; discriminate.
Defined.

Lemma app_period_inj (m m' : jsstring) (b b' : bool) :
  m ++ (if b then JS " AM" else JS " PM") =
  m' ++ (if b' then JS " AM" else JS " PM") ->
  m = m' /\ b = b'.
Proof.
  intros H. apply (f_equal (@rev code_unit)) in H.
  rewrite !rev_app_distr in H.
  destruct b, b'; simpl in H; injection H as H;
    try discriminate; apply (f_equal (@rev code_unit)) in H;
    rewrite !rev_involutive in H; split; congruence.
Qed.

(** X20. Two times of day that are shown alike are the same time: on the
    hours from 00 to 23, with minutes that hold no colon, [formatTime] loses
    nothing. *)
Theorem formatTime_injective (h h' : N) (minutes minutes' : jsstring) :
  (h < 24)%N -> (h' < 24)%N ->
  ~ In 58%N minutes -> ~ In 58%N minutes' ->
  TodoItem.formatTime (Some (timeValue h minutes)) =
  TodoItem.formatTime (Some (timeValue h' minutes')) ->
  h = h' /\ minutes = minutes'.
Proof.
  intros Hh Hh' Hm Hm' H.
  rewrite !formatTime_timeValue in H by (assumption || lia).
  apply (f_equal (TodoItem.split 58%N)) in H.
  change (JS ":" ++ ?x) with (58%N :: x) in H.
  rewrite !split_at_separator in H
    by (apply digitChar_not_colon; apply decimal_lt10).
  assert (Hp : forall (m : jsstring) (b : bool),
             ~ In 58%N m ->
             ~ In 58%N (m ++ (if b then JS " AM" else JS " PM"))).
  { intros m b Hin Hc. apply in_app_iff in Hc. destruct Hc as [Hc|Hc].
    - tauto.
    - destruct b; simpl in Hc;
        repeat (destruct Hc as [Hc|Hc]; [discriminate|]); exact Hc. }
  rewrite !split_no_separator in H by (apply Hp; assumption).
  injection H as Hd Hrest.
  apply map_digitChar_inj, decimal_inj in Hd.
  apply app_period_inj in Hrest. destruct Hrest as [Hmm Hb].
  split; [|exact Hmm].
  unfold hour12 in Hd.
  destruct (N.ltb_spec h 12) as [L|L]; destruct (N.ltb_spec h' 12) as [L'|L'];
    try discriminate.
  - rewrite (N.mod_small h 12 L), (N.mod_small h' 12 L') in Hd.
    destruct (N.eqb_spec h 0); destruct (N.eqb_spec h' 0); lia.
  - assert (E : (h mod 12 = h - 12)%N).
    { symmetry. apply (N.mod_unique h 12 1 (h - 12)); lia. }
    assert (E' : (h' mod 12 = h' - 12)%N).
    { symmetry. apply (N.mod_unique h' 12 1 (h' - 12)); lia. }
    rewrite E, E' in Hd.
    destruct (N.eqb_spec (h - 12) 0); destruct (N.eqb_spec (h' - 12) 0); lia.
Qed.

Lemma formatTime_injective_witness :
  9%N = 9%N /\ JS "05" = JS "05".
Proof.
  apply (formatTime_injective 9 9 (JS "05") (JS "05")).
  - reflexivity.
  - reflexivity.
  - vm_compute. intros [H|[H|[]]]; discriminate.
  - vm_compute. intros [H|[H|[]]]; discriminate.
  - reflexivity.
Defined.

(** X21. [formatTime] does not check its argument.  A string without colon
    has no minutes, and the word [undefined] is shown in their place, after
    whatever hour its digits give; when the string does not start with a
    number the hour shown is 12 AM. *)
Theorem formatTime_without_colon (s : jsstring) :
  s <> [] -> ~ In 58%N s ->
  (exists shown period,
     TodoItem.formatTime (Some s) = shown ++ JS ":undefined " ++ period /\
     (period = JS "AM" \/ period = JS "PM")) /\
  (TodoItem.parseInt s = None ->
   TodoItem.formatTime (Some s) = JS "12:undefined AM").
Proof.
  intros Hs Hc. destruct s as [|c s]; [congruence|].
  unfold TodoItem.formatTime. cbv zeta.
  rewrite (split_no_separator 58%N (c :: s) Hc).
  split.
  - eexists. exists (TodoItem.period (TodoItem.parseInt (c :: s))).
    split; [reflexivity|].
    unfold TodoItem.period.
    destruct (TodoItem.parseInt (c :: s)) as [z|]; [|left; reflexivity].
    destruct (z >=? 12); [right|left]; reflexivity.
  - intros H. rewrite H. reflexivity.
Qed.

Lemma formatTime_without_colon_witness :
  (exists shown period,
     TodoItem.formatTime (Some (JS "noon")) =
     shown ++ JS ":undefined " ++ period /\
     (period = JS "AM" \/ period = JS "PM")) /\
  (TodoItem.parseInt (JS "noon") = None ->
   TodoItem.formatTime (Some (JS "noon")) = JS "12:undefined AM").
Proof.
  apply (formatTime_without_colon (JS "noon")).
  - discriminate.
  - vm_compute. intros [H|[H|[H|[H|[]]]]]; discriminate.
Defined.

(** ** Leaving the edit form *)

Lemma cancelEdit_fill (ev : Event) (st : State) :
  fillsEditForm ev -> cancelEdit (handle ev st) = cancelEdit st.
Proof. destruct ev; simpl; intros H; try contradiction; reflexivity. Qed.

Lemma cancelEdit_fills (evs : list Event) (st : State) :
  Forall fillsEditForm evs -> cancelEdit (run evs st) = cancelEdit st.
Proof.
  intros H. revert st. induction H as [|ev evs Hev Hevs IH]; intros st.
  - reflexivity.
  - simpl. rewrite IH. apply cancelEdit_fill. exact Hev.
Qed.

Lemma run_app (evs evs' : list Event) (st : State) :
  run (evs ++ evs') st = run evs' (run evs st).
Proof. unfold run. apply fold_left_app. Qed.

(** X22. Cancelling discards the edit.  Open the edit form on a task, fill
    its fields in any way, then press Cancel, or let [handleEditKeyPress]
    receive the key Escape: the state is the one [cancelEdit] gives without
    the edit, so the task list is as it was and no edit is in progress.  When
    no edit was in progress and the edit cells were blank, the state is the
    one before. *)
Theorem cancel_discards_edit (id : Z) (x : jsstring) (d h : option jsstring)
    (evs : list Event) (st : State) :
  Forall fillsEditForm evs ->
  run (StartEdit id x d h :: evs ++ [ClickCancel]) st = cancelEdit st /\
  handleEditKeyPress Escape id (run (StartEdit id x d h :: evs) st) =
  cancelEdit st /\
  tasks (cancelEdit st) = tasks st /\
  editingTaskId (cancelEdit st) = None /\
  (editingTaskId st = None -> editTaskText st = [] ->
   editDueDate st = [] -> editDueTime st = [] -> cancelEdit st = st).
Proof.
  intros H.
  assert (E : cancelEdit (run (StartEdit id x d h :: evs) st) = cancelEdit st).
  { simpl. rewrite (cancelEdit_fills evs _ H). reflexivity. }
  split; [|split; [|split; [|split]]].
  - change (StartEdit id x d h :: evs ++ [ClickCancel])
      with ((StartEdit id x d h :: evs) ++ [ClickCancel]).
    rewrite run_app. exact E.
  - exact E.
  - reflexivity.
  - reflexivity.
  - destruct st. simpl. intros -> -> -> ->. reflexivity.
Qed.

Lemma cancel_discards_edit_witness :
  run (StartEdit 1000 (JS "Buy milk") None None ::
       [TypeEditText (JS "Buy oat milk"); PickEditDueTime (JS "09:00")] ++
       [ClickCancel]) sampleState = cancelEdit sampleState /\
  handleEditKeyPress Escape 1000
    (run (StartEdit 1000 (JS "Buy milk") None None ::
          [TypeEditText (JS "Buy oat milk"); PickEditDueTime (JS "09:00")])
       sampleState) = cancelEdit sampleState /\
  tasks (cancelEdit sampleState) = tasks sampleState /\
  editingTaskId (cancelEdit sampleState) = None /\
  (editingTaskId sampleState = None -> editTaskText sampleState = [] ->
   editDueDate sampleState = [] -> editDueTime sampleState = [] ->
   cancelEdit sampleState = sampleState).
Proof.
  apply (cancel_discards_edit 1000 (JS "Buy milk") None None
           [TypeEditText (JS "Buy oat milk"); PickEditDueTime (JS "09:00")]
           sampleState).
  repeat constructor.
Defined.

(** ** Deleting and the counts *)

Lemma filter_delete_count (p : Task.t -> bool) (l : list Task.t)
    (task : Task.t) :
  NoDup (map Task.id l) -> In task l ->
  length (filter p l) =
  (length
     (filter p
        (filter (fun t => negb (Z.eqb (Task.id t) (Task.id task))) l)) +
   (if p task then 1 else 0))%nat.
Proof.
  induction l as [|y l IH]; simpl; intros Hnd Hin; [contradiction|].
  inversion Hnd as [|z m Hy Hl]; subst.
  destruct Hin as [->|Hin].
  - rewrite Z.eqb_refl. simpl.
    rewrite (filter_all
               (fun t => negb (Z.eqb (Task.id t) (Task.id task))) l).
    + destruct (p task); simpl; lia.
    + intros t Ht. apply negb_true_iff, Z.eqb_neq. intros E. apply Hy.
      rewrite <- E. apply in_map. exact Ht.
  - assert (E : (Task.id y =? Task.id task) = false).
    { apply Z.eqb_neq. intros E. apply Hy. rewrite E. apply in_map.
      exact Hin. }
    rewrite E. simpl. specialize (IH Hl Hin).
    destruct (p y); simpl; lia.
Qed.

(** X23. When the identifiers are distinct, deleting a task of the list
    takes exactly one task away: the list is one shorter, the number of
    remaining tasks is one less when the task was not completed and the same
    when it was, and the badge of a filter button is one less on the button
    All and on the button of the task's category, and the same on the
    others. *)
Theorem deleteTask_counts (st : State) (task : Task.t) :
  NoDup (ids st) -> In task (tasks st) ->
  length (tasks st) = S (length (tasks (deleteTask (Task.id task) st))) /\
  remainingCount st =
  (remainingCount (deleteTask (Task.id task) st) +
   (if Task.completed task then 0 else 1))%nat /\
  (forall c,
     badgeCount c st =
     (badgeCount c (deleteTask (Task.id task) st) +
      (if jsstring_eqb c All || jsstring_eqb (Task.category task) c
       then 1 else 0))%nat).
Proof.
  intros Hnd Hin.
  pose proof (fun p => filter_delete_count p (tasks st) task Hnd Hin) as H.
  assert (Hlen : length (tasks st) =
                 S (length (tasks (deleteTask (Task.id task) st)))).
  { specialize (H (fun _ => true)). cbv beta in H.
    rewrite !(filter_all (fun _ : Task.t => true)) in H by reflexivity.
    unfold deleteTask. simpl. lia. }
  split; [exact Hlen|]. split.
  - unfold remainingCount, deleteTask. simpl.
    rewrite (H (fun t => negb (Task.completed t))).
    destruct (Task.completed task); reflexivity.
  - intros c. unfold badgeCount.
    destruct (jsstring_eqb c All); cbn [negb orb].
    + rewrite Hlen. lia.
    + unfold deleteTask. simpl.
      rewrite (H (fun t => jsstring_eqb (Task.category t) c)).
      reflexivity.
Qed.

Lemma deleteTask_counts_witness :
  length (tasks errandsState) =
  S (length (tasks (deleteTask 3000 errandsState))) /\
  remainingCount errandsState =
  (remainingCount (deleteTask 3000 errandsState) + 1)%nat /\
  (forall c,
     badgeCount c errandsState =
     (badgeCount c (deleteTask 3000 errandsState) +
      (if jsstring_eqb c All || jsstring_eqb Shopping c then 1 else 0))%nat).
Proof.
  apply (deleteTask_counts errandsState
           (Task.mk 3000 (JS "Buy bread") false Shopping None
              (Some (JS "18:30")))).
  - vm_compute. repeat constructor; simpl; intuition discriminate.
  - right. right. left. reflexivity.
Defined.

(** ** Scenarios *)

Example trim_spaces : trim (JS "  Buy milk ") = JS "Buy milk".
Proof. reflexivity. Qed.

(** A no-break space, an em space and a byte order mark are white space. *)
Example trim_unicode_blank : trim [160; 8195; 65279]%N = [].
Proof. reflexivity. Qed.

(** Add, toggle, update, delete. *)
Example buy_milk_scenario :
  tasks (run [TypeNewTask (JS "Buy milk"); SelectCategory Shopping;
              ClickAdd 1000] initialState) =
  [Task.mk 1000 (JS "Buy milk") false Shopping None None] /\
  tasks (run [TypeNewTask (JS "Buy milk"); SelectCategory Shopping;
              ClickAdd 1000; Toggle 1000] initialState) =
  [Task.mk 1000 (JS "Buy milk") true Shopping None None] /\
  tasks (run [TypeNewTask (JS "Buy milk"); SelectCategory Shopping;
              ClickAdd 1000; Toggle 1000;
              StartEdit 1000 (JS "Buy milk") None None;
              TypeEditText (JS "Buy oat milk");
              PickEditDueDate (JS "2025-12-01"); PickEditDueTime (JS "09:00");
              ClickUpdate 1000] initialState) =
  [Task.mk 1000 (JS "Buy oat milk") true Shopping (Some (JS "2025-12-01"))
     (Some (JS "09:00"))] /\
  tasks (run [TypeNewTask (JS "Buy milk"); SelectCategory Shopping;
              ClickAdd 1000; Toggle 1000; Delete 1000] initialState) = [].
Proof. repeat split. Qed.

(** A blank text adds nothing. *)
Example blank_text_scenario :
  tasks (run [TypeNewTask (JS "   "); ClickAdd 1000] initialState) = [].
Proof. reflexivity. Qed.

Example stringify_milkTasks : JSON_stringify (tasksArray milkTasks) = milkText.
Proof. reflexivity. Qed.

Example parse_milkText : JSON_parse milkText = inr (tasksArray milkTasks).
Proof. reflexivity. Qed.

(** White space between the tokens, escapes in strings, a fraction and an
    exponent. *)
Example parse_spaced_text :
  JSON_parse (JSONText " { 'a' : [ 1.50e2 , true, null ], 'bA' : '\n' } ")
  = inr (VObj [ (JS "a", VArr [VNum (Number_of_Z 150); VBool true; VNull]);
                (JS "bA", VStr [10%N]) ]).
Proof. reflexivity. Qed.

(** Array indices come first among the keys, in ascending order, and a
    repeated key keeps its first place and its last value. *)
Example parse_key_order :
  JSON_parse (JSONText "{'b':1,'10':2,'a':3,'9':4,'b':5}") =
  inr (VObj [ (JS "9", VNum (Number_of_Z 4));
              (JS "10", VNum (Number_of_Z 2));
              (JS "b", VNum (Number_of_Z 5));
              (JS "a", VNum (Number_of_Z 3)) ]).
Proof. reflexivity. Qed.

Example parse_rejects :
  JSON_parse (JSONText "[1,]") = inl SyntaxError /\
  JSON_parse (JSONText "01") = inl SyntaxError /\
  JSON_parse (JSONText "{a:1}") = inl SyntaxError /\
  JSON_parse (JSONText "'abc") = inl SyntaxError /\
  JSON_parse (JSONText "") = inl SyntaxError.
Proof. repeat split. Qed.

(** Nothing stored: the task list stays empty and nothing is reported. *)
Example load_nothing_stored :
  loadEffect (mountEnv emptyStorage) = Normal tt (mountEnv emptyStorage).
Proof. reflexivity. Qed.
